(** * RAID drive selector: a shallow embedding of [raid_selector.py]

    The development follows the Python module top-down: the [Combo]
    dataclass with its two derived properties, then [rank_combinations]
    with its generation loop (a dictionary of capacity buckets) and its
    ranking loop (the skyline pass over the buckets sorted by decreasing
    capacity).

    Modelling decisions.
    - Python [int] is [Z].
    - Python numbers used for capacities and prices ([float], or [int]
      as read from JSON) are an abstract carrier [num] with the four
      operations the program applies to them: [*], conversion from
      [int], [<] and [==].  The only facts assumed about them are that
      [<] is a strict total order up to [==] (class [Number]); nothing
      is assumed about the arithmetic, so the theorems do not depend on
      how products are rounded.  Exact rationals [Q] are the instance
      used to run the program.  IEEE NaN, which is not ordered, is
      outside of this model, and so is the [OverflowError] that Python
      raises when an [int] beyond the range of [float] (about 1e308)
      meets a [float] in a product: the conversion is total here.
    - Exceptions are values of [exn]; a computation that may raise
      returns [result].
    - [Dict[float, List[Combo]]] is an association list in insertion
      order, looked up with [==] on keys, as Python dictionaries are.
    - [prices.items()] is the list of (unit capacity, unit price) pairs
      in iteration order. *)

From Stdlib Require Import List ZArith QArith Bool String Lia Permutation Sorted.
Import ListNotations.

Local Open Scope string_scope.
Local Open Scope list_scope.
Local Open Scope Z_scope.

(** ** Exceptions and fallible computations *)

Inductive exn : Type :=
| ValueError (msg : string)
| KeyError
| IndexError (msg : string).

Inductive result (A : Type) : Type :=
| Ok (a : A)
| Raise (e : exn).

Arguments Ok {A} a.
Arguments Raise {A} e.

Definition bind {A B : Type} (m : result A) (k : A -> result B) : result B :=
  match m with
  | Ok a => k a
  | Raise e => Raise e
  end.

Notation "x <- m ;; k" := (bind m (fun x => k))
  (at level 61, m at next level, right associativity).

(** A [for] loop whose body may raise: the state is threaded through the
    iterations and the first exception aborts the loop. *)
Fixpoint for_each {A S : Type} (xs : list A) (body : S -> A -> result S)
  (s : S) : result S :=
  match xs with
  | [] => Ok s
  | x :: xs' => s' <- body s x ;; for_each xs' body s'
  end.

(** ** Numbers *)

Class Number (num : Type) : Type := {
  num_mul : num -> num -> num;
  num_of_int : Z -> num;
  num_lt : num -> num -> bool;
  num_eq : num -> num -> bool;
  num_lt_irrefl : forall x, num_lt x x = false;
  num_lt_trans : forall x y z,
      num_lt x y = true -> num_lt y z = true -> num_lt x z = true;
  num_lt_total : forall x y,
      num_lt x y = false -> num_lt y x = false -> num_eq x y = true;
  num_eq_lt_l : forall x y z, num_eq x y = true -> num_lt x z = num_lt y z;
  num_eq_lt_r : forall x y z, num_eq x y = true -> num_lt z x = num_lt z y
}.

(** [a > b] is [b < a]. *)
Definition num_gt {num : Type} `{Number num} (a b : num) : bool := num_lt b a.

(** ** Python built-ins used by the program *)

(** [x in [s1, ..., sn]] on strings. *)
Definition str_in (s : string) (l : list string) : bool :=
  existsb (String.eqb s) l.

(** [range(start, stop)]. *)
Definition range (start stop : Z) : list Z :=
  map (fun i => start + Z.of_nat i) (seq 0 (Z.to_nat (stop - start))).

(** [min(xs)]: the first least element; [ValueError] on an empty list. *)
Definition py_min {A : Type} (lt : A -> A -> bool) (xs : list A) : result A :=
  match xs with
  | [] => Raise (ValueError "min() arg is an empty sequence")
  | x :: xs' => Ok (fold_left (fun m y => if lt y m then y else m) xs' x)
  end.

(** [xs[0]] and [xs[-1]]: [IndexError] on an empty list. *)
Definition py_first {A : Type} (xs : list A) : result A :=
  match xs with
  | [] => Raise (IndexError "list index out of range")
  | x :: _ => Ok x
  end.

Definition py_last {A : Type} (xs : list A) : result A :=
  py_first (rev xs).

Section Selector.

Context {num : Type} `{Number num}.

(** ** The [Combo] dataclass *)

Record Combo : Type := mkCombo {
  drive_count : Z;
  unit_capacity : num;
  unit_price : num;
  raid_level : string
}.

(** Property [Combo.total_capacity]. *)
Definition total_capacity (self : Combo) : result num :=
  if str_in (raid_level self) ["RAID0"] then
    Ok (num_mul (unit_capacity self) (num_of_int (drive_count self)))
  else if str_in (raid_level self) ["RAID1"] then
    Ok (unit_capacity self)
  else if str_in (raid_level self) ["RAID3"; "RADI4"; "RAID5"] then
    Ok (num_mul (unit_capacity self) (num_of_int (drive_count self - 1)))
  else if str_in (raid_level self) ["RAID6"] then
    Ok (num_mul (unit_capacity self) (num_of_int (drive_count self - 2)))
  else
    Raise (ValueError ("Unknown RAID Level " ++ raid_level self)%string).

(** Property [Combo.total_price]. *)
Definition total_price (self : Combo) : num :=
  num_mul (unit_price self) (num_of_int (drive_count self)).

(** ** The dictionary [all_combos] *)

Definition dict : Type := list (num * list Combo).

(** [key in d]. *)
Definition dict_contains (d : dict) (key : num) : bool :=
  existsb (fun kv => num_eq (fst kv) key) d.

(** [d[key] = []] for a key that [d] does not contain: a new entry, last
    in iteration order. *)
Definition dict_new (d : dict) (key : num) : dict :=
  d ++ [(key, [])].

(** [d[key].append(combo)]: [KeyError] when [d] does not contain [key]. *)
Fixpoint dict_append (d : dict) (key : num) (combo : Combo) : result dict :=
  match d with
  | [] => Raise KeyError
  | (k, combos) :: d' =>
      if num_eq k key then Ok ((k, combos ++ [combo]) :: d')
      else d'' <- dict_append d' key combo ;; Ok ((k, combos) :: d'')
  end.

(** [sorted(d.items(), reverse=True)].  Items are ordered by their keys;
    the keys of a dictionary are pairwise different, so the comparison of
    two items never reaches their second components.  The sort is stable:
    an item goes behind the items with a larger key and in front of the
    others. *)
Fixpoint insert_desc (kv : num * list Combo) (l : list (num * list Combo))
  : list (num * list Combo) :=
  match l with
  | [] => [kv]
  | kv' :: l' =>
      if num_lt (fst kv) (fst kv') then kv' :: insert_desc kv l'
      else kv :: kv' :: l'
  end.

Definition sorted_desc (items : list (num * list Combo))
  : list (num * list Combo) :=
  fold_right insert_desc [] items.

(** ** [rank_combinations] *)

(** Body of the inner generation loop (lines 79-83). *)
Definition add_combo (raid_level : string) (drive_count : Z)
  (all_combos : dict) (item : num * num) : result dict :=
  let combo := mkCombo drive_count (fst item) (snd item) raid_level in
  total_capacity <- total_capacity combo ;;
  let all_combos :=
    if negb (dict_contains all_combos total_capacity)
    then dict_new all_combos total_capacity
    else all_combos in
  dict_append all_combos total_capacity combo.

(** The two nested generation loops (lines 76-83). *)
Definition generate (prices : list (num * num))
  (min_drive_count max_drive_count : Z) (raid_level : string) : result dict :=
  for_each (range min_drive_count (max_drive_count + 1))
    (fun all_combos drive_count =>
       for_each prices (add_combo raid_level drive_count) all_combos)
    [].

(** Body of the ranking loop (lines 87-95); [continue] leaves the list of
    ranked combinations as it is.  The source assigns the least drive
    count of the bucket to [min_drive_count], the name of a parameter of
    [rank_combinations]; the parameter is not read again after the
    generation loops, so the assignment is local to the body. *)
Definition rank_step (ranked_combos : list Combo)
  (item : num * list Combo) : result (list Combo) :=
  let combos := snd item in
  min_price <- py_min num_lt (map total_price combos) ;;
  dominated <-
    (if (0 <? Z.of_nat (List.length ranked_combos))
     then last_combo <- py_last ranked_combos ;;
          Ok (num_gt min_price (total_price last_combo))
     else Ok false) ;;
  if dominated then Ok ranked_combos
  else
    let cheapest_combos :=
      filter (fun combo => num_eq (total_price combo) min_price) combos in
    min_drive_count <- py_min Z.ltb (map drive_count cheapest_combos) ;;
    let tightest_combos :=
      filter (fun combo => drive_count combo =? min_drive_count)
        cheapest_combos in
    chosen <- py_first tightest_combos ;;
    Ok (ranked_combos ++ [chosen]).

Definition rank_combinations (prices : list (num * num))
  (min_drive_count max_drive_count : Z) (raid_level : string)
  : result (list Combo) :=
  all_combos <- generate prices min_drive_count max_drive_count raid_level ;;
  for_each (sorted_desc all_combos) rank_step [].

End Selector.

Arguments Combo num : clear implicits.
Arguments dict num : clear implicits.

(** ** Specification vocabulary *)

Section Vocabulary.

Context {num : Type} `{Number num}.

(** The combinations built by the two generation loops, in the order in
    which they are built: drive counts in increasing order, and for each
    drive count the catalog in iteration order. *)
Definition candidates (prices : list (num * num))
  (min_drive_count max_drive_count : Z) (raid_level : string)
  : list (Combo num) :=
  flat_map
    (fun drive_count =>
       map (fun item => mkCombo drive_count (fst item) (snd item) raid_level)
         prices)
    (range min_drive_count (max_drive_count + 1)).

(** [combo] belongs to the bucket of key [key]. *)
Definition in_bucket (key : num) (combo : Combo num) : bool :=
  match total_capacity combo with
  | Ok v => num_eq key v
  | Raise _ => false
  end.

(** Both capacities are defined and [==]. *)
Definition same_capacity (c c' : Combo num) : bool :=
  match total_capacity c with
  | Ok v => in_bucket v c'
  | Raise _ => false
  end.

(** Both capacities are defined and that of [c] is [>] that of [c']. *)
Definition capacity_gt (c c' : Combo num) : Prop :=
  exists v v', total_capacity c = Ok v /\ total_capacity c' = Ok v' /\
               num_lt v' v = true.

(** Both capacities are defined and that of [c] is not [<] that of [c']. *)
Definition capacity_ge (c c' : Combo num) : Prop :=
  exists v v', total_capacity c = Ok v /\ total_capacity c' = Ok v' /\
               num_lt v v' = false.

(** The price of [c] is not [>] the price of [c']. *)
Definition price_le (c c' : Combo num) : Prop :=
  num_lt (total_price c') (total_price c) = false.

(** Walking [l] in order, no entry is related by [R] to an earlier one
    the wrong way round: every earlier entry is [R]-related to every later
    one. *)
Definition ordered (R : Combo num -> Combo num -> Prop)
  (l : list (Combo num)) : Prop :=
  forall i j ci cj, (i < j)%nat ->
    nth_error l i = Some ci -> nth_error l j = Some cj -> R ci cj.

(** The identifiers accepted by [Combo.total_capacity]. *)
Definition recognised (raid_level : string) : bool :=
  str_in raid_level ["RAID0"; "RAID1"; "RAID3"; "RADI4"; "RAID5"; "RAID6"].

(** What the body of the ranking loop picks in a bucket: a combination of
    least price, of least drive count among those, and the first such in
    the bucket. *)
Definition tie (c c' : Combo num) : bool :=
  num_eq (total_price c') (total_price c)
  && (drive_count c' =? drive_count c).

Definition Chosen (combos : list (Combo num)) (c : Combo num) : Prop :=
  (forall c', In c' combos -> price_le c c') /\
  (forall c', In c' combos ->
     num_eq (total_price c') (total_price c) = true ->
     drive_count c <= drive_count c') /\
  find (tie c) combos = Some c.

(** The last element of a list, if any. *)
Definition last_opt {A : Type} (l : list A) : option A :=
  match rev l with
  | [] => None
  | x :: _ => Some x
  end.

(** The ranking loop as a relation: [Picks o bs ps] when, started with
    [o] as the last accepted combination, the loop over the buckets [bs]
    appends [ps]. *)
Inductive Picks : option (Combo num) -> list (num * list (Combo num)) ->
                  list (Combo num) -> Prop :=
| Picks_nil o : Picks o [] []
| Picks_skip c0 k l bs ps :
    (forall c', In c' l -> num_lt (total_price c0) (total_price c') = true) ->
    Picks (Some c0) bs ps ->
    Picks (Some c0) ((k, l) :: bs) ps
| Picks_take o k l bs c ps :
    Chosen l c ->
    (forall c0, o = Some c0 -> price_le c c0) ->
    Picks (Some c) bs ps ->
    Picks o ((k, l) :: bs) (c :: ps).

(** The dictionary [d] holds the combinations [cs] grouped by capacity:
    every bucket is the non-empty list of the combinations of [cs] with
    its key's capacity, in the order of [cs]; keys are pairwise different;
    every combination of [cs] has a bucket. *)
Definition distinct_keys (d : dict num) : Prop :=
  ForallOrdPairs (fun a b => num_eq a b = false) (map fst d).

Definition buckets_of (d : dict num) (cs : list (Combo num)) : Prop :=
  (forall k l, In (k, l) d -> l = filter (in_bucket k) cs /\ l <> []) /\
  distinct_keys d /\
  (forall c, In c cs -> exists k l, In (k, l) d /\ in_bucket k c = true).

(** In the sorted list of buckets [a] comes before [b] when its key is
    larger. *)
Definition key_gt (a b : num * list (Combo num)) : Prop :=
  num_lt (fst b) (fst a) = true.

(** The buckets hold combinations of their key's capacity. *)
Definition keyed (bs : list (num * list (Combo num))) : Prop :=
  forall k l c, In (k, l) bs -> In c l -> in_bucket k c = true.

End Vocabulary.

(** ** Exact rationals as numbers *)

Definition Q_lt (x y : Q) : bool :=
  match Qcompare x y with
  | Lt => true
  | _ => false
  end.

#[export] Program Instance Q_Number : Number Q := {
  num_mul := Qmult;
  num_of_int := inject_Z;
  num_lt := Q_lt;
  num_eq := Qeq_bool
}.
Next Obligation.
  unfold Q_lt. now rewrite (proj1 (Qeq_alt x x) (Qeq_refl x)).
Qed.
Next Obligation.
  unfold Q_lt in *.
  destruct (Qcompare_spec x y); try discriminate.
  destruct (Qcompare_spec y z); try discriminate.
  assert (Hxz : (x < z)%Q) by (eapply Qlt_trans; eassumption).
  destruct (Qcompare_spec x z) as [E | L | G]; try reflexivity; exfalso.
  - rewrite E in Hxz. exact (Qlt_irrefl _ Hxz).
  - exact (Qlt_irrefl _ (Qlt_trans _ _ _ Hxz G)).
Qed.
Next Obligation.
  unfold Q_lt in *. apply Qeq_bool_iff.
  destruct (Qcompare_spec x y); try discriminate; try assumption.
  destruct (Qcompare_spec y x); try discriminate.
  - now symmetry.
  - exfalso. eapply Qlt_irrefl. eapply Qlt_trans; eassumption.
Qed.
Next Obligation.
  match goal with
  | E : Qeq_bool _ _ = true |- _ => apply Qeq_bool_iff in E; unfold Q_lt; now rewrite E
  end.
Qed.
Next Obligation.
  match goal with
  | E : Qeq_bool _ _ = true |- _ => apply Qeq_bool_iff in E; unfold Q_lt; now rewrite E
  end.
Qed.

(** ** Example inputs *)

(** [{1.0: 100, 2.0: 150}] *)
Definition catalog_plain : list (Q * Q) := [(1%Q, 100%Q); (2%Q, 150%Q)].

(** [{1.0: 500, 2.0: 150}] *)
Definition catalog_steep : list (Q * Q) := [(1%Q, 500%Q); (2%Q, 150%Q)].

Definition combo (drive_count : Z) (unit_capacity unit_price : Q)
  (raid_level : string) : Combo Q :=
  mkCombo drive_count unit_capacity unit_price raid_level.

(** ** Changing the level of combinations *)

Section Relabel.

Context {num : Type} `{Number num}.

(** The combination [c] with [raid_level] as its level. *)
Definition relabel (raid_level : string) (c : Combo num) : Combo num :=
  mkCombo (drive_count c) (unit_capacity c) (unit_price c) raid_level.

(** The dictionary [d] with every combination relabelled. *)
Definition relabel_dict (raid_level : string) (d : dict num) : dict num :=
  map (fun kv => (fst kv, map (relabel raid_level) (snd kv))) d.

(** The identifiers of the single-parity branch of [total_capacity]. *)
Definition parity_levels : list string := ["RAID3"; "RADI4"; "RAID5"].

End Relabel.

(** * Properties *)

(** ** The error monad and the loops *)

Lemma bind_ok {A B : Type} (m : result A) (k : A -> result B) (b : B) :
  (x <- m ;; k x) = Ok b -> exists a, m = Ok a /\ k a = Ok b.
Proof.
  destruct m as [a | e]; simpl; intros E; [eauto | discriminate].
Qed.

Lemma for_each_app {A S : Type} (xs ys : list A) (body : S -> A -> result S)
  (s : S) :
  for_each (xs ++ ys) body s = (s' <- for_each xs body s ;; for_each ys body s').
Proof.
  revert s. induction xs as [| x xs IH]; intros s; simpl; [reflexivity |].
  destruct (body s x) as [s1 | e]; simpl; [apply IH | reflexivity].
Qed.

Ltac inv_bind H :=
  let a := fresh "a" in
  let Ha := fresh "Ha" in
  apply bind_ok in H; destruct H as (a & Ha & H).

(** ** Lists *)

Lemma filter_snoc {A : Type} (f : A -> bool) (l : list A) (x : A) :
  filter f (l ++ [x]) = filter f l ++ (if f x then [x] else []).
Proof.
  rewrite filter_app. simpl. destruct (f x); reflexivity.
Qed.

Lemma filter_filter {A : Type} (f g : A -> bool) (l : list A) :
  filter g (filter f l) = filter (fun x => f x && g x) l.
Proof.
  induction l as [| x l IH]; simpl; [reflexivity |].
  destruct (f x); simpl; [destruct (g x) |]; rewrite IH; reflexivity.
Qed.

Lemma filter_head_find {A : Type} (f : A -> bool) (l : list A) (x : A)
  (rest : list A) :
  filter f l = x :: rest -> find f l = Some x.
Proof.
  induction l as [| y l IH]; simpl; [discriminate |].
  destruct (f y); [intros E; injection E as -> _; reflexivity | exact IH].
Qed.

Lemma find_filter {A : Type} (f g : A -> bool) (l : list A) :
  find g (filter f l) = find (fun x => f x && g x) l.
Proof.
  induction l as [| x l IH]; simpl; [reflexivity |].
  destruct (f x); simpl; [destruct (g x); [reflexivity | exact IH] | exact IH].
Qed.

Lemma find_ext {A : Type} (f g : A -> bool) (l : list A) :
  (forall x, In x l -> f x = g x) -> find f l = find g l.
Proof.
  induction l as [| x l IH]; simpl; intros E; [reflexivity |].
  rewrite (E x (or_introl eq_refl)).
  destruct (g x); [reflexivity | apply IH; auto].
Qed.

Lemma find_map {A B : Type} (f : B -> bool) (g : A -> B) (l : list A) (b : B) :
  find f (map g l) = Some b ->
  exists a, find (fun x => f (g x)) l = Some a /\ b = g a.
Proof.
  induction l as [| x l IH]; simpl; [discriminate |].
  destruct (f (g x)); [intros E; injection E as <-; eauto | exact IH].
Qed.

Lemma find_flat_map {A B : Type} (f : B -> bool) (g : A -> list B)
  (l : list A) (b : B) :
  find f (flat_map g l) = Some b ->
  exists a, In a l /\ find f (g a) = Some b.
Proof.
  induction l as [| x l IH]; simpl; [discriminate |].
  intros E. destruct (find f (g x)) as [b' |] eqn:Hx.
  - exists x. split; [now left |].
    rewrite Hx. revert E Hx. generalize (flat_map g l).
    induction (g x) as [| y ys IHys]; simpl; [discriminate |].
    intros l0. destruct (f y); [congruence | apply IHys].
  - assert (E' : find f (flat_map g l) = Some b).
    { revert E Hx. generalize (flat_map g l).
      induction (g x) as [| y ys IHys]; simpl; [auto |].
      intros l0. destruct (f y); [discriminate | apply IHys]. }
    destruct (IH E') as (a & Ha & Hf). exists a. split; [now right | exact Hf].
Qed.

Lemma strongly_sorted_nth {A : Type} (R : A -> A -> Prop) (l : list A) :
  StronglySorted R l ->
  forall i j x y, (i < j)%nat ->
    nth_error l i = Some x -> nth_error l j = Some y -> R x y.
Proof.
  induction 1 as [| a l Hs IH Ha]; intros i j x y Hij Hi Hj.
  - destruct i; discriminate.
  - destruct j as [| j]; [lia |]. simpl in Hj.
    destruct i as [| i]; simpl in Hi.
    + injection Hi as <-. rewrite Forall_forall in Ha.
      apply Ha. eapply nth_error_In; eassumption.
    + apply (IH i j); [lia | assumption | assumption].
Qed.

Lemma range_In (start stop d : Z) :
  In d (range start stop) <-> start <= d < stop.
Proof.
  unfold range. rewrite in_map_iff. split.
  - intros (i & <- & Hi). apply in_seq in Hi. lia.
  - intros Hd. exists (Z.to_nat (d - start)). split; [lia |].
    apply in_seq. lia.
Qed.

Lemma range_empty (start stop : Z) : stop <= start -> range start stop = [].
Proof.
  intros Hle. unfold range.
  replace (Z.to_nat (stop - start)) with 0%nat by lia. reflexivity.
Qed.

Lemma range_cons (start stop : Z) :
  start < stop -> range start stop = start :: range (start + 1) stop.
Proof.
  intros Hlt. unfold range.
  replace (Z.to_nat (stop - start)) with (S (Z.to_nat (stop - (start + 1))))
    by lia.
  simpl. f_equal; [lia |].
  rewrite <- seq_shift, map_map. apply map_ext. intros i. lia.
Qed.

(** ** [min] *)

Section Min.

Context {A : Type} (lt : A -> A -> bool).
Hypothesis lt_asym : forall x y, lt x y = true -> lt y x = false.
Hypothesis lt_refl_false : forall x, lt x x = false.
Hypothesis le_trans :
  forall x y z, lt x y = false -> lt y z = false -> lt x z = false.

Lemma fold_min_spec (xs : list A) (m0 : A) :
  let m := fold_left (fun m y => if lt y m then y else m) xs m0 in
  (m = m0 \/ In m xs) /\ lt m0 m = false /\
  (forall x, In x xs -> lt x m = false).
Proof.
  revert m0. induction xs as [| y xs IH]; intros m0; simpl.
  - repeat split; [now left | apply lt_refl_false | tauto].
  - destruct (lt y m0) eqn:Hy.
    + destruct (IH y) as (Hin & Hle & Hall). repeat split.
      * destruct Hin as [-> | Hin]; [right; now left | right; now right].
      * apply (le_trans _ y); [apply lt_asym; exact Hy | exact Hle].
      * intros x [<- | Hx]; [exact Hle | apply Hall; exact Hx].
    + destruct (IH m0) as (Hin & Hle & Hall). repeat split.
      * destruct Hin as [-> | Hin]; [now left | right; now right].
      * exact Hle.
      * intros x [<- | Hx]; [| apply Hall; exact Hx].
        apply (le_trans _ m0); [exact Hy | exact Hle].
Qed.

Lemma py_min_spec (xs : list A) (m : A) :
  py_min lt xs = Ok m ->
  In m xs /\ (forall x, In x xs -> lt x m = false).
Proof.
  destruct xs as [| x xs]; simpl; [discriminate |].
  intros E. injection E as <-.
  destruct (fold_min_spec xs x) as (Hin & Hle & Hall). split.
  - destruct Hin as [-> | Hin]; [now left | now right].
  - intros y [<- | Hy]; [exact Hle | apply Hall; exact Hy].
Qed.

Lemma py_min_total (xs : list A) : xs <> [] -> exists m, py_min lt xs = Ok m.
Proof.
  destruct xs as [| x xs]; [congruence | simpl; eauto].
Qed.

End Min.

(** ** The order on numbers *)

Section Order.

Context {num : Type} `{Number num}.

Lemma num_eq_refl (x : num) : num_eq x x = true.
Proof. apply num_lt_total; apply num_lt_irrefl. Qed.

Lemma num_eq_not_lt (x y : num) :
  num_eq x y = true -> num_lt x y = false /\ num_lt y x = false.
Proof.
  intros E. split.
  - rewrite (num_eq_lt_l x y y E). apply num_lt_irrefl.
  - rewrite (num_eq_lt_r x y y E). apply num_lt_irrefl.
Qed.

Lemma num_eq_sym (x y : num) : num_eq x y = true -> num_eq y x = true.
Proof.
  intros E. destruct (num_eq_not_lt x y E). now apply num_lt_total.
Qed.

Lemma num_eq_trans (x y z : num) :
  num_eq x y = true -> num_eq y z = true -> num_eq x z = true.
Proof.
  intros Exy Eyz. destruct (num_eq_not_lt y z Eyz) as [L1 L2].
  apply num_lt_total.
  - now rewrite (num_eq_lt_l x y z Exy).
  - now rewrite (num_eq_lt_r x y z Exy).
Qed.

Lemma num_lt_asym (x y : num) : num_lt x y = true -> num_lt y x = false.
Proof.
  intros L. destruct (num_lt y x) eqn:G; [| reflexivity].
  rewrite <- (num_lt_irrefl x). symmetry. eapply num_lt_trans; eassumption.
Qed.

Lemma num_le_trans (x y z : num) :
  num_lt x y = false -> num_lt y z = false -> num_lt x z = false.
Proof.
  intros Lxy Lyz. destruct (num_lt x z) eqn:Lxz; [| reflexivity].
  destruct (num_lt y x) eqn:Lyx.
  - rewrite <- Lyz. symmetry. eapply num_lt_trans; eassumption.
  - assert (E : num_eq x y = true) by now apply num_lt_total.
    pose proof (num_eq_lt_l x y z E). congruence.
Qed.

Lemma num_lt_le_trans (x y z : num) :
  num_lt x y = true -> num_lt z y = false -> num_lt x z = true.
Proof.
  intros Lxy Lzy. destruct (num_lt x z) eqn:Lxz; [reflexivity |].
  rewrite <- Lxy. symmetry. eapply num_le_trans; eassumption.
Qed.

Lemma num_le_lt_trans (x y z : num) :
  num_lt y x = false -> num_lt y z = true -> num_lt x z = true.
Proof.
  intros Lyx Lyz. destruct (num_lt x z) eqn:Lxz; [reflexivity |].
  rewrite <- Lyz. symmetry. eapply num_le_trans; eassumption.
Qed.

Lemma in_bucket_capacity (k : num) (c : Combo num) :
  in_bucket k c = true <->
  exists v, total_capacity c = Ok v /\ num_eq k v = true.
Proof.
  unfold in_bucket. destruct (total_capacity c) as [v | e]; split.
  - eauto.
  - intros (v' & E & Hv). injection E as ->. exact Hv.
  - discriminate.
  - intros (v' & E & _). discriminate.
Qed.

Lemma in_bucket_eq (k k' : num) (c : Combo num) :
  num_eq k k' = true -> in_bucket k c = in_bucket k' c.
Proof.
  intros E. unfold in_bucket. destruct (total_capacity c) as [v | e];
    [| reflexivity].
  destruct (num_eq k v) eqn:Hk, (num_eq k' v) eqn:Hk'; try reflexivity.
  - rewrite <- Hk'. symmetry.
    apply (num_eq_trans k' k v); [now apply num_eq_sym | exact Hk].
  - rewrite <- Hk. apply (num_eq_trans k k' v); assumption.
Qed.

(** ** [total_capacity] *)

Lemma total_capacity_recognised (c : Combo num) :
  recognised (raid_level c) = true <-> exists v, total_capacity c = Ok v.
Proof.
  unfold recognised, total_capacity, str_in. simpl.
  destruct (String.eqb (raid_level c) "RAID0"); simpl; [split; eauto |].
  destruct (String.eqb (raid_level c) "RAID1"); simpl; [split; eauto |].
  destruct (String.eqb (raid_level c) "RAID3"); simpl; [split; eauto |].
  destruct (String.eqb (raid_level c) "RADI4"); simpl; [split; eauto |].
  destruct (String.eqb (raid_level c) "RAID5"); simpl; [split; eauto |].
  destruct (String.eqb (raid_level c) "RAID6"); simpl; [split; eauto |].
  split; [discriminate | intros (v & E); discriminate].
Qed.

Lemma total_capacity_unknown (c : Combo num) :
  recognised (raid_level c) = false ->
  total_capacity c
  = Raise (ValueError ("Unknown RAID Level " ++ raid_level c)%string).
Proof.
  unfold recognised, total_capacity, str_in. simpl.
  destruct (String.eqb (raid_level c) "RAID0"); simpl; [discriminate |].
  destruct (String.eqb (raid_level c) "RAID1"); simpl; [discriminate |].
  destruct (String.eqb (raid_level c) "RAID3"); simpl; [discriminate |].
  destruct (String.eqb (raid_level c) "RADI4"); simpl; [discriminate |].
  destruct (String.eqb (raid_level c) "RAID5"); simpl; [discriminate |].
  destruct (String.eqb (raid_level c) "RAID6"); simpl; [discriminate |].
  reflexivity.
Qed.

(** ** The dictionary *)

Lemma dict_contains_false (d : dict num) (key : num) :
  dict_contains d key = false <->
  Forall (fun k => num_eq k key = false) (map fst d).
Proof.
  unfold dict_contains. induction d as [| [k l] d IH]; simpl.
  - split; [constructor | reflexivity].
  - rewrite Bool.orb_false_iff, IH. split.
    + intros [E F]. now constructor.
    + intros F. inversion F; subst. now split.
Qed.

Lemma dict_append_ok (d d' : dict num) (key : num) (c : Combo num) :
  dict_append d key c = Ok d' ->
  exists d1 k l d2,
    d = d1 ++ (k, l) :: d2 /\ d' = d1 ++ (k, l ++ [c]) :: d2 /\
    num_eq k key = true /\
    Forall (fun k' => num_eq k' key = false) (map fst d1).
Proof.
  revert d'. induction d as [| [k l] d IH]; simpl; intros d' E;
    [discriminate |].
  destruct (num_eq k key) eqn:Hk.
  - injection E as <-. exists [], k, l, d. repeat split; auto.
  - inv_bind E. injection E as <-.
    destruct (IH a Ha) as (d1 & k0 & l0 & d2 & -> & -> & Hk0 & Hd1).
    exists ((k, l) :: d1), k0, l0, d2. repeat split; auto.
    simpl. now constructor.
Qed.

Lemma dict_append_total (d : dict num) (key : num) (c : Combo num) :
  dict_contains d key = true -> exists d', dict_append d key c = Ok d'.
Proof.
  unfold dict_contains. induction d as [| [k l] d IH]; simpl;
    [discriminate |].
  destruct (num_eq k key) eqn:Hk; simpl; [eauto |].
  intros E. destruct (IH E) as (d' & ->). simpl. eauto.
Qed.

Lemma distinct_keys_snoc (d : dict num) (key : num) (l : list (Combo num)) :
  distinct_keys d ->
  Forall (fun k => num_eq k key = false) (map fst d) ->
  distinct_keys (d ++ [(key, l)]).
Proof.
  unfold distinct_keys. rewrite map_app. simpl.
  induction (map fst d) as [| k ks IH]; simpl; intros D F.
  - repeat constructor.
  - inversion D; subst. inversion F; subst. constructor.
    + apply Forall_app. split; [assumption | now repeat constructor].
    + now apply IH.
Qed.

Lemma distinct_keys_middle (d1 d2 : dict num) (k : num)
  (l : list (Combo num)) :
  distinct_keys (d1 ++ (k, l) :: d2) ->
  forall k' l', In (k', l') (d1 ++ d2) -> num_eq k' k = false.
Proof.
  unfold distinct_keys. induction d1 as [| [k1 l1] d1 IH]; simpl;
    intros D k' l' Hin; inversion D as [| a ks Ha D']; subst.
  - rewrite Forall_forall in Ha.
    destruct (num_eq k' k) eqn:E; [| reflexivity].
    rewrite <- (Ha k'); [symmetry; now apply num_eq_sym |].
    apply in_map_iff. now exists (k', l').
  - destruct Hin as [[= <- <-] | Hin]; [| now apply (IH D' k' l')].
    rewrite Forall_forall in Ha. apply Ha.
    rewrite map_app. apply in_or_app. right. now left.
Qed.

End Order.

(** ** The generation loops *)

Section Generation.

Context {num : Type} `{Number num}.

Lemma filter_none {A : Type} (f : A -> bool) (l : list A) :
  (forall x, In x l -> f x = false) -> filter f l = [].
Proof.
  induction l as [| x l IH]; simpl; intros E; [reflexivity |].
  rewrite (E x (or_introl eq_refl)). apply IH. auto.
Qed.

Lemma dict_append_new (d : dict num) (key : num) (l : list (Combo num))
  (c : Combo num) :
  Forall (fun k => num_eq k key = false) (map fst d) ->
  dict_append (d ++ [(key, l)]) key c = Ok (d ++ [(key, l ++ [c])]).
Proof.
  induction d as [| [k l0] d IH]; simpl; intros F.
  - now rewrite num_eq_refl.
  - inversion F as [| a ks Ha F']; subst. simpl in Ha. rewrite Ha.
    rewrite (IH F'). reflexivity.
Qed.

Lemma buckets_of_nil : buckets_of ([] : dict num) [].
Proof.
  repeat split; try (intros; contradiction). constructor.
Qed.

Lemma buckets_of_some (d : dict num) (cs : list (Combo num)) (c : Combo num) :
  buckets_of d cs -> In c cs -> exists v, total_capacity c = Ok v.
Proof.
  intros (_ & _ & Hcov) Hc. destruct (Hcov c Hc) as (k & l & _ & Hb).
  apply in_bucket_capacity in Hb. destruct Hb as (v & E & _). eauto.
Qed.

Lemma buckets_of_nonempty (d : dict num) (cs : list (Combo num)) :
  buckets_of d cs -> forall k l, In (k, l) d -> l <> [].
Proof.
  intros (Hb & _) k l Hin. now apply (Hb k l).
Qed.

Lemma buckets_of_member (d : dict num) (cs : list (Combo num)) :
  buckets_of d cs ->
  forall k l c, In (k, l) d -> In c l -> In c cs /\ in_bucket k c = true.
Proof.
  intros (Hb & _) k l c Hin Hc. destruct (Hb k l Hin) as (-> & _).
  apply filter_In in Hc. exact Hc.
Qed.

Lemma add_combo_buckets (lvl : string) (dc : Z) (d d' : dict num)
  (item : num * num) (cs : list (Combo num)) :
  buckets_of d cs ->
  add_combo lvl dc d item = Ok d' ->
  buckets_of d' (cs ++ [mkCombo dc (fst item) (snd item) lvl]).
Proof.
  intros (Hb & Hd & Hcov) E. unfold add_combo in E.
  set (c := mkCombo dc (fst item) (snd item) lvl) in *.
  inv_bind E. rename a into v, Ha into Hv.
  assert (Hcv : forall k, in_bucket k c = num_eq k v).
  { intros k. unfold in_bucket. now rewrite Hv. }
  destruct (dict_contains d v) eqn:Hin; simpl in E.
  - (* the capacity already has a bucket *)
    apply dict_append_ok in E.
    destruct E as (d1 & k & l & d2 & -> & -> & Hk & _).
    assert (Hother : forall k' l', In (k', l') (d1 ++ d2) -> in_bucket k' c = false).
    { intros k' l' Hi. rewrite Hcv.
      pose proof (distinct_keys_middle d1 d2 k l Hd k' l' Hi) as Hne.
      destruct (num_eq k' v) eqn:Hk'; [| reflexivity].
      rewrite <- Hne. symmetry.
      apply (num_eq_trans k' v k); [exact Hk' | now apply num_eq_sym]. }
    split; [| split].
    + intros k' l' Hi. apply in_app_or in Hi.
      destruct Hi as [Hi | [[= <- <-] | Hi]].
      * rewrite filter_snoc, (Hother k' l'), app_nil_r
          by (apply in_or_app; now left).
        apply Hb. apply in_or_app. now left.
      * rewrite filter_snoc, Hcv, Hk. split.
        -- f_equal. apply (Hb k l). apply in_or_app. right. now left.
        -- destruct l; discriminate.
      * rewrite filter_snoc, (Hother k' l'), app_nil_r
          by (apply in_or_app; now right).
        apply Hb. apply in_or_app. right. now right.
    + unfold distinct_keys in *. rewrite map_app in *. exact Hd.
    + intros c' Hc'. apply in_app_or in Hc'. destruct Hc' as [Hc' | [<- | []]].
      * destruct (Hcov c' Hc') as (k' & l' & Hi & Hbk).
        apply in_app_or in Hi. destruct Hi as [Hi | [[= <- <-] | Hi]].
        -- exists k', l'. split; [apply in_or_app; now left | exact Hbk].
        -- exists k, (l ++ [c]). split; [| exact Hbk].
           apply in_or_app. right. now left.
        -- exists k', l'. split; [| exact Hbk].
           apply in_or_app. right. now right.
      * exists k, (l ++ [c]). split; [| now rewrite Hcv].
        apply in_or_app. right. now left.
  - (* a new bucket *)
    apply dict_contains_false in Hin. unfold dict_new in E.
    rewrite (dict_append_new d v [] c Hin) in E. injection E as <-.
    simpl. rewrite Forall_forall in Hin.
    assert (Hold : forall k' l', In (k', l') d -> in_bucket k' c = false).
    { intros k' l' Hi. rewrite Hcv. apply Hin.
      apply in_map_iff. now exists (k', l'). }
    split; [| split].
    + intros k' l' Hi. apply in_app_or in Hi.
      destruct Hi as [Hi | [[= <- <-] | []]].
      * rewrite filter_snoc, (Hold k' l' Hi), app_nil_r. now apply Hb.
      * rewrite filter_snoc, Hcv, num_eq_refl. split; [| discriminate].
        rewrite filter_none; [reflexivity |].
        intros c' Hc'. destruct (Hcov c' Hc') as (k' & l' & Hi & Hbk).
        destruct (in_bucket v c') eqn:Hvc; [| reflexivity].
        apply in_bucket_capacity in Hbk, Hvc.
        destruct Hbk as (v' & E1 & Hk'), Hvc as (v'' & E2 & Hv').
        rewrite E1 in E2. injection E2 as <-.
        rewrite <- (Hin k'); [| apply in_map_iff; now exists (k', l')].
        symmetry. apply (num_eq_trans k' v' v); [exact Hk' |].
        now apply num_eq_sym.
    + apply distinct_keys_snoc; [exact Hd | now apply Forall_forall].
    + intros c' Hc'. apply in_app_or in Hc'. destruct Hc' as [Hc' | [<- | []]].
      * destruct (Hcov c' Hc') as (k' & l' & Hi & Hbk).
        exists k', l'. split; [apply in_or_app; now left | exact Hbk].
      * exists v, [c]. split; [apply in_or_app; right; now left |].
        rewrite Hcv. apply num_eq_refl.
Qed.

Lemma add_combo_total (lvl : string) (dc : Z) (d : dict num) (item : num * num) :
  recognised lvl = true -> exists d', add_combo lvl dc d item = Ok d'.
Proof.
  intros Hr. unfold add_combo.
  destruct (proj1 (total_capacity_recognised
                     (mkCombo dc (fst item) (snd item) lvl)) Hr) as (v & ->).
  simpl. destruct (dict_contains d v) eqn:Hin; simpl.
  - now apply dict_append_total.
  - apply dict_contains_false in Hin. unfold dict_new.
    rewrite (dict_append_new d v [] _ Hin). eauto.
Qed.

Lemma inner_loop_buckets (lvl : string) (dc : Z) (items : list (num * num)) :
  forall (d d' : dict num) (cs : list (Combo num)),
    buckets_of d cs ->
    for_each items (add_combo lvl dc) d = Ok d' ->
    buckets_of d'
      (cs ++ map (fun item => mkCombo dc (fst item) (snd item) lvl) items).
Proof.
  induction items as [| item items IH]; simpl; intros d d' cs Hb E.
  - injection E as <-. now rewrite app_nil_r.
  - inv_bind E.
    pose proof (add_combo_buckets lvl dc d a item cs Hb Ha) as Hb'.
    specialize (IH a d' _ Hb' E). now rewrite <- app_assoc in IH.
Qed.

Lemma outer_loop_buckets (lvl : string) (prices : list (num * num))
  (dcs : list Z) :
  forall (d d' : dict num) (cs : list (Combo num)),
    buckets_of d cs ->
    for_each dcs
      (fun all_combos dc => for_each prices (add_combo lvl dc) all_combos) d
    = Ok d' ->
    buckets_of d'
      (cs ++ flat_map
         (fun dc => map (fun item => mkCombo dc (fst item) (snd item) lvl)
                      prices) dcs).
Proof.
  induction dcs as [| dc dcs IH]; simpl; intros d d' cs Hb E.
  - injection E as <-. now rewrite app_nil_r.
  - inv_bind E.
    pose proof (inner_loop_buckets lvl dc prices d a cs Hb Ha) as Hb'.
    specialize (IH a d' _ Hb' E). now rewrite <- app_assoc in IH.
Qed.

Lemma generate_buckets (prices : list (num * num)) (lo hi : Z) (lvl : string)
  (d : dict num) :
  generate prices lo hi lvl = Ok d ->
  buckets_of d (candidates prices lo hi lvl).
Proof.
  intros E. unfold generate in E.
  exact (outer_loop_buckets lvl prices _ [] d [] buckets_of_nil E).
Qed.

Lemma inner_loop_total (lvl : string) (dc : Z) (items : list (num * num)) :
  recognised lvl = true ->
  forall d : dict num, exists d', for_each items (add_combo lvl dc) d = Ok d'.
Proof.
  intros Hr. induction items as [| item items IH]; simpl; intros d; [eauto |].
  destruct (add_combo_total lvl dc d item Hr) as (d1 & ->). simpl. apply IH.
Qed.

Lemma generate_total (prices : list (num * num)) (lo hi : Z) (lvl : string) :
  recognised lvl = true -> exists d, generate prices lo hi lvl = Ok d.
Proof.
  intros Hr. unfold generate. generalize ([] : dict num).
  induction (range lo (hi + 1)) as [| dc dcs IH]; simpl; intros d; [eauto |].
  destruct (inner_loop_total lvl dc prices Hr d) as (d1 & ->). simpl. apply IH.
Qed.

Lemma candidates_In (prices : list (num * num)) (lo hi : Z) (lvl : string)
  (c : Combo num) :
  In c (candidates prices lo hi lvl) <->
  lo <= drive_count c <= hi /\
  In (unit_capacity c, unit_price c) prices /\
  raid_level c = lvl.
Proof.
  unfold candidates. rewrite in_flat_map. split.
  - intros (dc & Hdc & Hc). apply range_In in Hdc.
    apply in_map_iff in Hc. destruct Hc as ([uc up] & <- & Hi). simpl.
    repeat split; try lia; assumption.
  - intros (Hdc & Hi & Hl). exists (drive_count c). split.
    + apply range_In. lia.
    + apply in_map_iff. exists (unit_capacity c, unit_price c).
      split; [| exact Hi]. destruct c; simpl in *. now subst.
Qed.

End Generation.

(** ** Sorting the buckets *)

Section Sorting.

Context {num : Type} `{Number num}.

Lemma insert_desc_In (kv x : num * list (Combo num))
  (l : list (num * list (Combo num))) :
  In x (insert_desc kv l) <-> x = kv \/ In x l.
Proof.
  induction l as [| y l IH]; simpl.
  - intuition.
  - destruct (num_lt (fst kv) (fst y)); simpl; [rewrite IH |]; intuition.
Qed.

Lemma sorted_desc_In (x : num * list (Combo num)) (d : dict num) :
  In x (sorted_desc d) <-> In x d.
Proof.
  unfold sorted_desc. induction d as [| kv d IH]; simpl; [tauto |].
  rewrite insert_desc_In, IH. intuition.
Qed.

Lemma insert_desc_sorted (kv : num * list (Combo num))
  (l : list (num * list (Combo num))) :
  StronglySorted key_gt l ->
  Forall (fun b => num_eq (fst kv) (fst b) = false) l ->
  StronglySorted key_gt (insert_desc kv l).
Proof.
  induction 1 as [| y l Hs IH Hy]; simpl; intros Hd.
  - repeat constructor.
  - inversion Hd as [| a l0 Hne Hd']; subst.
    destruct (num_lt (fst kv) (fst y)) eqn:L.
    + constructor; [now apply IH |].
      rewrite Forall_forall in *. intros z Hz.
      apply insert_desc_In in Hz. destruct Hz as [-> | Hz]; [exact L | auto].
    + assert (G : num_lt (fst y) (fst kv) = true).
      { destruct (num_lt (fst y) (fst kv)) eqn:G; [reflexivity |].
        rewrite <- Hne. now apply num_lt_total. }
      constructor; [now constructor |].
      constructor; [exact G |].
      rewrite Forall_forall in *. intros z Hz. unfold key_gt.
      eapply num_lt_trans; [apply (Hy z Hz) | exact G].
Qed.

Lemma sorted_desc_sorted (d : dict num) :
  distinct_keys d -> StronglySorted key_gt (sorted_desc d).
Proof.
  unfold distinct_keys, sorted_desc.
  induction d as [| [k l] d IH]; simpl; intros Hd; [constructor |].
  inversion Hd as [| a ks Hk Hd']; subst.
  apply insert_desc_sorted; [now apply IH |].
  rewrite Forall_forall in *. intros b Hb. simpl. apply Hk.
  apply in_map. now apply (sorted_desc_In b d).
Qed.

End Sorting.

(** ** The ranking loop *)

Section Ranking.

Context {num : Type} `{Number num}.

Lemma last_opt_snoc {A : Type} (l : list A) (x : A) :
  last_opt (l ++ [x]) = Some x.
Proof.
  unfold last_opt. now rewrite rev_app_distr.
Qed.

Lemma rank_step_inv (r r' : list (Combo num)) (k : num)
  (l : list (Combo num)) :
  rank_step r (k, l) = Ok r' ->
  (r' = r /\ exists c0, last_opt r = Some c0 /\
     forall c', In c' l -> num_lt (total_price c0) (total_price c') = true)
  \/
  (exists c, r' = r ++ [c] /\ Chosen l c /\
     forall c0, last_opt r = Some c0 -> price_le c c0).
Proof.
  unfold rank_step. simpl. intros E.
  inv_bind E. rename a into mp, Ha into Hmp.
  apply (py_min_spec num_lt num_lt_asym num_lt_irrefl num_le_trans) in Hmp.
  destruct Hmp as (Hmp_in & Hmp_le).
  inv_bind E. rename a into dominated, Ha into Hdom.
  assert (Hlast : match last_opt r with
                  | Some c0 => dominated = num_lt (total_price c0) mp
                  | None => dominated = false
                  end).
  { unfold last_opt, py_last in *. destruct r as [| x r].
    - simpl in *. congruence.
    - replace (0 <? Z.of_nat (List.length (x :: r))) with true in Hdom
        by (symmetry; apply Z.ltb_lt; simpl; lia).
      destruct (rev (x :: r)) as [| c0 rest] eqn:Hrev.
      + apply (f_equal (@List.length _)) in Hrev.
        rewrite length_rev in Hrev. discriminate.
      + simpl in Hdom. unfold num_gt in Hdom. congruence. }
  destruct dominated.
  - (* continue *)
    injection E as <-. left. split; [reflexivity |].
    destruct (last_opt r) as [c0 |]; [| discriminate].
    exists c0. split; [reflexivity |]. intros c' Hc'.
    apply (num_lt_le_trans _ mp); [now symmetry |].
    apply Hmp_le. now apply in_map.
  - (* append *)
    inv_bind E. rename a into md, Ha into Hmd.
    apply (py_min_spec Z.ltb) in Hmd; try (intros; lia).
    destruct Hmd as (_ & Hmd_le).
    inv_bind E. rename a into c, Ha into Hc. injection E as <-.
    right. exists c. split; [reflexivity |].
    set (cheapest := filter (fun combo => num_eq (total_price combo) mp) l) in *.
    destruct (filter (fun combo => drive_count combo =? md) cheapest)
      as [| c1 rest] eqn:Htight; simpl in Hc; [discriminate |].
    injection Hc as ->.
    assert (Hct : In c (filter (fun combo => drive_count combo =? md) cheapest))
      by (rewrite Htight; now left).
    apply filter_In in Hct. destruct Hct as (Hcc & Hcd).
    apply Z.eqb_eq in Hcd.
    unfold cheapest in Hcc. apply filter_In in Hcc. destruct Hcc as (Hcl & Hcp).
    assert (Hsame : forall c', num_eq (total_price c') (total_price c)
                               = num_eq (total_price c') mp).
    { intros c'.
      destruct (num_eq (total_price c') (total_price c)) eqn:E1,
               (num_eq (total_price c') mp) eqn:E2; try reflexivity.
      - rewrite <- E2. symmetry. eapply num_eq_trans; eassumption.
      - rewrite <- E1. eapply num_eq_trans; [exact E2 |].
        now apply num_eq_sym. }
    split; [split; [| split] |].
    + intros c' Hc'. unfold price_le.
      rewrite (num_eq_lt_r _ _ (total_price c') Hcp).
      apply Hmp_le. now apply in_map.
    + intros c' Hc' Heq. rewrite Hsame in Heq. rewrite Hcd.
      assert (Hin : In (drive_count c') (map drive_count cheapest)).
      { apply in_map. apply filter_In. now split. }
      specialize (Hmd_le _ Hin). lia.
    + apply filter_head_find with (rest := rest).
      unfold cheapest in Htight. rewrite filter_filter in Htight.
      rewrite <- Htight. apply filter_ext. intros c'. unfold tie.
      now rewrite Hsame, Hcd.
    + destruct (last_opt r) as [c1 |]; intros c0 Hc0; [| discriminate].
      injection Hc0 as <-. unfold price_le.
      rewrite (num_eq_lt_r _ _ (total_price c1) Hcp). now symmetry.
Qed.

Lemma rank_loop_picks (bs : list (num * list (Combo num))) :
  forall r r' : list (Combo num),
    for_each bs rank_step r = Ok r' ->
    exists ps, r' = r ++ ps /\ Picks (last_opt r) bs ps.
Proof.
  induction bs as [| [k l] bs IH]; simpl; intros r r' E.
  - injection E as <-. exists []. split; [now rewrite app_nil_r | constructor].
  - inv_bind E. apply rank_step_inv in Ha.
    destruct Ha as [(-> & c0 & Hl & Hdom) | (c & -> & Hch & Hle)].
    + destruct (IH r r' E) as (ps & -> & Hp). exists ps.
      split; [reflexivity |]. rewrite Hl in *. now constructor.
    + destruct (IH _ r' E) as (ps & -> & Hp). exists (c :: ps).
      split; [now rewrite <- app_assoc |].
      rewrite last_opt_snoc in Hp. now constructor.
Qed.

Lemma rank_step_total (r : list (Combo num)) (k : num)
  (l : list (Combo num)) :
  l <> [] -> exists r', rank_step r (k, l) = Ok r'.
Proof.
  intros Hl. unfold rank_step. simpl.
  destruct (py_min_total num_lt (map total_price l)) as (mp & Hmp).
  { destruct l; [congruence | discriminate]. }
  rewrite Hmp. simpl.
  apply (py_min_spec num_lt num_lt_asym num_lt_irrefl num_le_trans) in Hmp.
  destruct Hmp as (Hmp_in & _).
  assert (Hdom : exists b,
             (if 0 <? Z.of_nat (List.length r)
              then last_combo <- py_last r ;;
                   Ok (num_gt mp (total_price last_combo))
              else Ok false) = Ok b).
  { destruct (0 <? Z.of_nat (List.length r)) eqn:Hlen; [| eauto].
    unfold py_last. destruct (rev r) as [| c0 rest] eqn:Hrev; simpl; [| eauto].
    apply (f_equal (@List.length _)) in Hrev. rewrite length_rev in Hrev.
    apply Z.ltb_lt in Hlen. simpl in Hrev. lia. }
  destruct Hdom as (b & ->). simpl. destruct b; [eauto |].
  set (cheapest := filter (fun combo => num_eq (total_price combo) mp) l).
  apply in_map_iff in Hmp_in. destruct Hmp_in as (c & Hcp & Hcl).
  assert (Hcc : In c cheapest).
  { apply filter_In. split; [exact Hcl |]. rewrite Hcp. apply num_eq_refl. }
  destruct (py_min_total Z.ltb (map drive_count cheapest)) as (md & Hmd).
  { destruct cheapest; [contradiction | discriminate]. }
  rewrite Hmd. simpl.
  apply (py_min_spec Z.ltb) in Hmd; try (intros; lia).
  destruct Hmd as (Hmd_in & _).
  apply in_map_iff in Hmd_in. destruct Hmd_in as (c1 & Hc1d & Hc1).
  assert (Ht : In c1 (filter (fun combo => drive_count combo =? md) cheapest)).
  { apply filter_In. split; [exact Hc1 | now apply Z.eqb_eq]. }
  destruct (filter (fun combo => drive_count combo =? md) cheapest);
    [contradiction | simpl; eauto].
Qed.

Lemma rank_loop_total (bs : list (num * list (Combo num))) :
  (forall k l, In (k, l) bs -> l <> []) ->
  forall r : list (Combo num), exists r', for_each bs rank_step r = Ok r'.
Proof.
  induction bs as [| [k l] bs IH]; simpl; intros Hne r; [eauto |].
  destruct (rank_step_total r k l) as (r1 & ->); [apply (Hne k l); now left |].
  simpl. apply IH. intros k' l' Hi. apply (Hne k' l'). now right.
Qed.

End Ranking.

(** ** What the ranking loop picks *)

Section Frontier.

Context {num : Type} `{Number num}.

Lemma Chosen_In (l : list (Combo num)) (c : Combo num) :
  Chosen l c -> In c l.
Proof.
  intros (_ & _ & Hf). apply find_some in Hf. tauto.
Qed.

Lemma Picks_prices (o : option (Combo num)) bs ps :
  Picks o bs ps ->
  (forall c0, o = Some c0 -> Forall (fun p => price_le p c0) ps) /\
  StronglySorted (fun a b => price_le b a) ps.
Proof.
  induction 1 as [o | c0 k l bs ps Hdom Hp IH | o k l bs c ps Hch Hle Hp IH].
  - split; [intros; constructor | constructor].
  - exact IH.
  - destruct IH as (IH1 & IH2). specialize (IH1 c eq_refl). split.
    + intros c0 Hc0. constructor; [now apply Hle |].
      rewrite Forall_forall in *. intros p Hp'. unfold price_le in *.
      apply (num_le_trans _ (total_price c)); [now apply Hle | now apply IH1].
    + now constructor.
Qed.

Lemma Picks_chosen (o : option (Combo num)) bs ps :
  Picks o bs ps ->
  Forall (fun p => exists k l, In (k, l) bs /\ Chosen l p) ps.
Proof.
  induction 1 as [o | c0 k l bs ps Hdom Hp IH | o k l bs c ps Hch Hle Hp IH].
  - constructor.
  - rewrite Forall_forall in *. intros p Hp'.
    destruct (IH p Hp') as (k' & l' & Hi & Hc). exists k', l'.
    split; [now right | exact Hc].
  - constructor; [exists k, l; split; [now left | exact Hch] |].
    rewrite Forall_forall in *. intros p Hp'.
    destruct (IH p Hp') as (k' & l' & Hi & Hc). exists k', l'.
    split; [now right | exact Hc].
Qed.

Lemma keyed_tail (b : num * list (Combo num)) bs : keyed (b :: bs) -> keyed bs.
Proof.
  intros Hk k l c Hi Hc. apply (Hk k l c); [now right | exact Hc].
Qed.

Lemma bucket_capacity_gt (k k' : num) (c c' : Combo num) :
  in_bucket k c = true -> in_bucket k' c' = true -> num_lt k' k = true ->
  capacity_gt c c'.
Proof.
  intros Hc Hc' L. apply in_bucket_capacity in Hc, Hc'.
  destruct Hc as (v & E & Hv), Hc' as (v' & E' & Hv').
  exists v, v'. repeat split; try assumption.
  rewrite <- (num_eq_lt_l k' v' v Hv'), <- (num_eq_lt_r k v k' Hv). exact L.
Qed.

Lemma Picks_capacities (o : option (Combo num)) bs ps :
  keyed bs -> StronglySorted key_gt bs -> Picks o bs ps ->
  StronglySorted capacity_gt ps.
Proof.
  intros Hk Hs Hp. revert Hk Hs.
  induction Hp as [o | c0 k l bs ps Hdom Hp IH | o k l bs c ps Hch Hle Hp IH];
    intros Hk Hs.
  - constructor.
  - inversion Hs; subst. apply IH; [eapply keyed_tail; eassumption | assumption].
  - inversion Hs as [| b bs' Hs' Hall]; subst.
    constructor; [apply IH; [eapply keyed_tail; eassumption | assumption] |].
    pose proof (Picks_chosen _ _ _ Hp) as Hfrom.
    rewrite Forall_forall in *. intros p Hp'.
    destruct (Hfrom p Hp') as (k' & l' & Hi & Hc).
    apply (bucket_capacity_gt k k').
    + apply (Hk k l); [now left | now apply Chosen_In].
    + apply (Hk k' l'); [now right | now apply Chosen_In].
    + apply (Hall (k', l') Hi).
Qed.

Lemma Picks_dominate (o : option (Combo num)) bs ps :
  keyed bs -> StronglySorted key_gt bs -> Picks o bs ps ->
  forall k l c', In (k, l) bs -> In c' l ->
    (exists p, In p ps /\ capacity_ge p c' /\ price_le p c') \/
    (exists c0, o = Some c0 /\
                num_lt (total_price c0) (total_price c') = true).
Proof.
  intros Hk Hs Hp. revert Hk Hs.
  induction Hp as [o | c0 k0 l0 bs ps Hdom Hp IH | o k0 l0 bs c ps Hch Hle Hp IH];
    intros Hk Hs k l c' Hi Hc'.
  - contradiction.
  - inversion Hs; subst. destruct Hi as [[= <- <-] | Hi].
    + right. exists c0. split; [reflexivity | now apply Hdom].
    + apply (IH (keyed_tail _ _ Hk) ltac:(assumption) k l c' Hi Hc').
  - inversion Hs as [| b bs' Hs' Hall]; subst. left.
    assert (Hck : in_bucket k0 c = true)
      by (apply (Hk k0 l0); [now left | now apply Chosen_In]).
    destruct Hi as [[= <- <-] | Hi].
    + exists c. split; [now left |]. split; [| now apply Hch].
      pose proof (Hk k0 l0 c' (or_introl eq_refl) Hc') as Hc'k.
      apply in_bucket_capacity in Hck, Hc'k.
      destruct Hck as (v & E & Hv), Hc'k as (v' & E' & Hv').
      exists v, v'. repeat split; try assumption.
      refine (proj1 (num_eq_not_lt v v' _)).
      apply (num_eq_trans v k0 v'); [| exact Hv']. now apply num_eq_sym.
    + destruct (IH (keyed_tail _ _ Hk) Hs' k l c' Hi Hc')
        as [(p & Hp' & Hcap & Hpr) | (c1 & [= <-] & Hlt)].
      * exists p. split; [now right | now split].
      * exists c. split; [now left |]. split.
        -- rewrite Forall_forall in Hall.
           destruct (bucket_capacity_gt k0 k c c' Hck
                       (Hk k l c' (or_intror Hi) Hc') (Hall (k, l) Hi))
             as (v & v' & E & E' & L).
           exists v, v'. repeat split; try assumption.
           now apply num_lt_asym.
        -- unfold price_le. now apply num_lt_asym.
Qed.

(** ** [rank_combinations] as a whole *)

Lemma rank_combinations_picks (prices : list (num * num)) (lo hi : Z)
  (lvl : string) (res : list (Combo num)) :
  rank_combinations prices lo hi lvl = Ok res ->
  exists d,
    buckets_of d (candidates prices lo hi lvl) /\
    keyed (sorted_desc d) /\
    StronglySorted key_gt (sorted_desc d) /\
    Picks None (sorted_desc d) res.
Proof.
  unfold rank_combinations. intros E. inv_bind E. rename a into d.
  exists d. pose proof (generate_buckets _ _ _ _ _ Ha) as Hb.
  split; [exact Hb |]. split; [| split].
  - intros k l c Hi Hc. apply (proj1 (sorted_desc_In _ _)) in Hi.
    now apply (buckets_of_member d _ Hb k l c).
  - apply sorted_desc_sorted. apply Hb.
  - destruct (rank_loop_picks _ _ _ E) as (ps & -> & Hp). exact Hp.
Qed.

Lemma rank_combinations_from (prices : list (num * num)) (lo hi : Z)
  (lvl : string) (res : list (Combo num)) (c : Combo num) :
  rank_combinations prices lo hi lvl = Ok res -> In c res ->
  exists k, in_bucket k c = true /\
            Chosen (filter (in_bucket k) (candidates prices lo hi lvl)) c.
Proof.
  intros E Hc.
  destruct (rank_combinations_picks _ _ _ _ _ E) as (d & Hb & Hk & _ & Hp).
  pose proof (Picks_chosen _ _ _ Hp) as Hfrom. rewrite Forall_forall in Hfrom.
  destruct (Hfrom c Hc) as (k & l & Hi & Hch). exists k. split.
  - apply (Hk k l c Hi). now apply Chosen_In.
  - apply (proj1 (sorted_desc_In _ _)) in Hi. destruct Hb as (Hb & _).
    destruct (Hb k l Hi) as (<- & _). exact Hch.
Qed.

(** [rank_combinations] returns a list for every identifier that
    [total_capacity] accepts. *)
Lemma rank_combinations_returns (prices : list (num * num)) (lo hi : Z)
  (lvl : string) :
  recognised lvl = true ->
  exists res, rank_combinations prices lo hi lvl = Ok res.
Proof.
  intros Hr. unfold rank_combinations.
  destruct (generate_total prices lo hi lvl Hr) as (d & E). rewrite E. simpl.
  apply rank_loop_total. intros k l Hi. apply (proj1 (sorted_desc_In _ _)) in Hi.
  exact (buckets_of_nonempty d _ (generate_buckets _ _ _ _ _ E) k l Hi).
Qed.

(** For any other identifier the first combination built raises. *)
Lemma rank_combinations_unknown (item : num * num) (prices : list (num * num))
  (lo hi : Z) (lvl : string) :
  lo <= hi -> recognised lvl = false ->
  rank_combinations (item :: prices) lo hi lvl
  = Raise (ValueError ("Unknown RAID Level " ++ lvl)%string).
Proof.
  intros Hle Hr. unfold rank_combinations, generate.
  rewrite range_cons by lia. simpl. unfold add_combo at 1.
  rewrite total_capacity_unknown by exact Hr. reflexivity.
Qed.

Lemma generate_empty_catalog (lo hi : Z) (lvl : string) :
  generate ([] : list (num * num)) lo hi lvl = Ok [].
Proof.
  unfold generate. induction (range lo (hi + 1)) as [| dc dcs IH]; simpl; auto.
Qed.

End Frontier.

(** * The claims *)

Section Claims.

Context {num : Type} `{Number num}.

Lemma same_capacity_bucket (k : num) (c : Combo num) :
  in_bucket k c = true ->
  forall c', same_capacity c c' = in_bucket k c'.
Proof.
  intros Hk c'. unfold same_capacity.
  apply in_bucket_capacity in Hk. destruct Hk as (v & -> & Hv).
  symmetry. now apply in_bucket_eq.
Qed.

(** Every generated combination has an entry of the result of at least
    its capacity and at most its price. *)
Lemma rank_combinations_dominates (prices : list (num * num)) (lo hi : Z)
  (lvl : string) (res : list (Combo num)) (c' : Combo num) :
  rank_combinations prices lo hi lvl = Ok res ->
  In c' (candidates prices lo hi lvl) ->
  exists r, In r res /\ capacity_ge r c' /\ price_le r c'.
Proof.
  intros E Hc'.
  destruct (rank_combinations_picks _ _ _ _ _ E) as (d & Hb & Hk & Hs & Hp).
  destruct Hb as (Hb & _ & Hcov).
  destruct (Hcov c' Hc') as (k & l & Hi & Hbk).
  assert (Hl : In c' l).
  { destruct (Hb k l Hi) as (-> & _). apply filter_In. now split. }
  apply (proj2 (sorted_desc_In _ _)) in Hi.
  destruct (Picks_dominate None _ _ Hk Hs Hp k l c' Hi Hl)
    as [Hdom | (c0 & Hc0 & _)]; [exact Hdom | discriminate].
Qed.

(** C1: walking the list returned by [rank_combinations] in order,
    [total_price] is non-increasing: no later entry's total price is [>]
    the total price of an earlier entry. *)
Theorem rank_combinations_price_nonincreasing (prices : list (num * num))
  (lo hi : Z) (lvl : string) (res : list (Combo num)) :
  rank_combinations prices lo hi lvl = Ok res ->
  ordered
    (fun earlier later =>
       num_gt (total_price later) (total_price earlier) = false)
    res.
Proof.
  intros E.
  destruct (rank_combinations_picks _ _ _ _ _ E) as (d & _ & _ & _ & Hp).
  destruct (Picks_prices _ _ _ Hp) as (_ & Hs).
  unfold ordered. intros i j ci cj Hij Hi Hj.
  exact (strongly_sorted_nth _ _ Hs i j ci cj Hij Hi Hj).
Qed.

(** C2: the total capacities of the list returned by [rank_combinations]
    are strictly decreasing along the list. *)
Theorem rank_combinations_capacity_decreasing (prices : list (num * num))
  (lo hi : Z) (lvl : string) (res : list (Combo num)) :
  rank_combinations prices lo hi lvl = Ok res ->
  ordered capacity_gt res.
Proof.
  intros E.
  destruct (rank_combinations_picks _ _ _ _ _ E) as (d & _ & Hk & Hs & Hp).
  pose proof (Picks_capacities _ _ _ Hk Hs Hp) as Hc.
  unfold ordered. intros i j ci cj Hij Hi Hj.
  exact (strongly_sorted_nth _ _ Hc i j ci cj Hij Hi Hj).
Qed.

(** C3: a generated combination whose total capacity is the capacity of
    no entry of the returned list is dominated: some entry of the list has
    at least its total capacity and at most its total price. *)
Theorem rank_combinations_excluded_dominated (prices : list (num * num))
  (lo hi : Z) (lvl : string) (res : list (Combo num)) (c' : Combo num) :
  rank_combinations prices lo hi lvl = Ok res ->
  In c' (candidates prices lo hi lvl) ->
  (forall r, In r res -> same_capacity c' r = false) ->
  exists r, In r res /\ capacity_ge r c' /\ price_le r c'.
Proof.
  intros E Hc' _. now apply (rank_combinations_dominates prices lo hi lvl).
Qed.

(** C7: every entry of the returned list is, among the generated
    combinations of its total capacity, one of least total price, among
    those one of least drive count, and among those still tied the first
    in catalog iteration order. *)
Theorem rank_combinations_tie_break (prices : list (num * num))
  (lo hi : Z) (lvl : string) (res : list (Combo num)) (c : Combo num) :
  rank_combinations prices lo hi lvl = Ok res ->
  In c res ->
  let bucket := filter (same_capacity c) (candidates prices lo hi lvl) in
  In c bucket /\
  (forall c', In c' bucket -> price_le c c') /\
  (forall c', In c' bucket ->
     num_eq (total_price c') (total_price c) = true ->
     drive_count c <= drive_count c') /\
  find
    (fun item =>
       let c' := mkCombo (drive_count c) (fst item) (snd item) lvl in
       same_capacity c c' && tie c c')
    prices
  = Some (unit_capacity c, unit_price c).
Proof.
  intros E Hc bucket.
  destruct (rank_combinations_from _ _ _ _ _ c E Hc) as (k & Hk & Hch).
  pose proof (same_capacity_bucket k c Hk) as Hsame.
  assert (Hbucket : bucket = filter (in_bucket k) (candidates prices lo hi lvl)).
  { unfold bucket. apply filter_ext. exact Hsame. }
  rewrite Hbucket.
  split; [now apply Chosen_In |].
  destruct Hch as (Hprice & Hcount & Hfirst).
  split; [exact Hprice |]. split; [exact Hcount |].
  rewrite find_filter in Hfirst. unfold candidates in Hfirst.
  apply find_flat_map in Hfirst. destruct Hfirst as (dc & _ & Hfirst).
  apply find_map in Hfirst. destruct Hfirst as (item & Hfirst & Hitem).
  assert (Hdc : drive_count c = dc) by now rewrite Hitem.
  assert (Huc : (unit_capacity c, unit_price c) = item)
    by (rewrite Hitem; now destruct item).
  rewrite Huc, Hdc, <- Hfirst.
  apply find_ext. intros item' _. simpl. now rewrite Hsame.
Qed.

(** C9: on an empty price catalog and a valid drive-count range,
    [rank_combinations] returns the empty list and does not raise. *)
Theorem rank_combinations_empty_catalog (lo hi : Z) (lvl : string) :
  lo <= hi ->
  rank_combinations ([] : list (num * num)) lo hi lvl = Ok [].
Proof.
  intros _. unfold rank_combinations. now rewrite generate_empty_catalog.
Qed.

(** C5 (as the code has it): when the minimum drive count exceeds the
    maximum, [rank_combinations] returns the empty list and does not
    raise. *)
Theorem rank_combinations_empty_range (prices : list (num * num))
  (lo hi : Z) (lvl : string) :
  lo > hi ->
  rank_combinations prices lo hi lvl = Ok [].
Proof.
  intros Hgt. unfold rank_combinations, generate.
  rewrite range_empty by lia. reflexivity.
Qed.

(** C10: every combination of the returned list was generated from the
    inputs: its drive count lies in the range, its unit capacity and unit
    price are an entry of the catalog, and its RAID level is the
    argument. *)
Theorem rank_combinations_from_inputs (prices : list (num * num))
  (lo hi : Z) (lvl : string) (res : list (Combo num)) (c : Combo num) :
  rank_combinations prices lo hi lvl = Ok res ->
  In c res ->
  lo <= drive_count c <= hi /\
  In (unit_capacity c, unit_price c) prices /\
  raid_level c = lvl.
Proof.
  intros E Hc.
  destruct (rank_combinations_from _ _ _ _ _ c E Hc) as (k & _ & Hch).
  apply Chosen_In, filter_In in Hch. destruct Hch as (Hin & _).
  now apply candidates_In.
Qed.

(** ["RAID4"] is not among the identifiers tested by [total_capacity],
    which has ["RADI4"] in its place. *)
Lemma total_capacity_RAID4 (dc : Z) (uc up : num) :
  total_capacity (mkCombo dc uc up "RAID4")
  = Raise (ValueError "Unknown RAID Level RAID4").
Proof. reflexivity. Qed.

(** For ["RAID3"] and ["RAID5"] the capacity is that of all drives but
    one. *)
Lemma total_capacity_RAID3_RAID5 (dc : Z) (uc up : num) (lvl : string) :
  lvl = "RAID3" \/ lvl = "RAID5" ->
  total_capacity (mkCombo dc uc up lvl)
  = Ok (num_mul uc (num_of_int (dc - 1))).
Proof. intros [-> | ->]; reflexivity. Qed.

End Claims.

(** ** Runs on exact rationals *)

(** C8: on the catalog [{1.0: 500, 2.0: 150}], the range [3..3] and
    ["RAID5"], [rank_combinations] returns exactly one entry, of total
    capacity 4 and total price 450; the bucket of capacity 2, whose least
    price is 1500, is met after it and skipped by the dominance test. *)
Theorem rank_combinations_steep_3_3 :
  let kept := combo 3 2%Q 150%Q "RAID5" in
  let dropped := combo 3 1%Q 500%Q "RAID5" in
  rank_combinations catalog_steep 3 3 "RAID5" = Ok [kept] /\
  total_capacity kept = Ok 4%Q /\
  total_price kept = 450%Q /\
  candidates catalog_steep 3 3 "RAID5" = [dropped; kept] /\
  total_capacity dropped = Ok 2%Q /\
  total_price dropped = 1500%Q /\
  (all_combos <- generate catalog_steep 3 3 "RAID5" ;;
   Ok (sorted_desc all_combos))
  = Ok [(4%Q, [kept]); (2%Q, [dropped])] /\
  py_min num_lt (map total_price [dropped]) = Ok 1500%Q /\
  num_gt 1500%Q (total_price kept) = true /\
  rank_step [kept] (2%Q, [dropped]) = Ok [kept].
Proof.
  repeat split; reflexivity.
Qed.

(** C4 (as the code has it): for ["RAID4"], three drives of capacity 1
    and price 100, [total_capacity] raises where the capacity of two
    drives is expected. *)
Theorem total_capacity_RAID4_raises :
  total_capacity (combo 3 1%Q 100%Q "RAID4")
  = Raise (ValueError "Unknown RAID Level RAID4") /\
  total_capacity (combo 3 1%Q 100%Q "RAID4")
  <> Ok (num_mul 1%Q (num_of_int (3 - 1))).
Proof. split; [reflexivity | discriminate]. Qed.

(** C6 (as the code has it): ["RADI4"] is none of the identifiers of
    the specification, yet [total_capacity] accepts it and
    [rank_combinations] returns a list for it. *)
Theorem rank_combinations_RADI4_returns :
  rank_combinations [(1%Q, 100%Q)] 3 3 "RADI4"
  = Ok [combo 3 1%Q 100%Q "RADI4"].
Proof. reflexivity. Qed.

(** C5, refuted as stated: with minimum 5 and maximum 3 the function
    returns the empty list; it raises nothing. *)
Lemma rank_combinations_5_3_no_error :
  5 > 3 /\
  rank_combinations catalog_plain 5 3 "RAID5" = Ok [] /\
  ~ (exists e, rank_combinations catalog_plain 5 3 "RAID5" = Raise e).
Proof.
  split; [lia |]. split; [reflexivity |].
  intros (e & E). discriminate E.
Qed.

(** *** Instances of the theorems on concrete inputs *)

Lemma rank_combinations_price_nonincreasing_witness :
  rank_combinations catalog_steep 3 4 "RAID5"
  = Ok [combo 4 2%Q 150%Q "RAID5"; combo 3 2%Q 150%Q "RAID5"] /\
  ordered
    (fun earlier later =>
       num_gt (total_price later) (total_price earlier) = false)
    [combo 4 2%Q 150%Q "RAID5"; combo 3 2%Q 150%Q "RAID5"].
Proof.
  split; [reflexivity |].
  apply (rank_combinations_price_nonincreasing catalog_steep 3 4 "RAID5").
  reflexivity.
Defined.

Lemma rank_combinations_capacity_decreasing_witness :
  rank_combinations catalog_steep 3 4 "RAID5"
  = Ok [combo 4 2%Q 150%Q "RAID5"; combo 3 2%Q 150%Q "RAID5"] /\
  ordered capacity_gt
    [combo 4 2%Q 150%Q "RAID5"; combo 3 2%Q 150%Q "RAID5"].
Proof.
  split; [reflexivity |].
  apply (rank_combinations_capacity_decreasing catalog_steep 3 4 "RAID5").
  reflexivity.
Defined.

Lemma rank_combinations_excluded_dominated_witness :
  let res := [combo 4 2%Q 150%Q "RAID5"; combo 3 2%Q 150%Q "RAID5"] in
  let c' := combo 3 1%Q 500%Q "RAID5" in
  rank_combinations catalog_steep 3 4 "RAID5" = Ok res /\
  In c' (candidates catalog_steep 3 4 "RAID5") /\
  (forall r, In r res -> same_capacity c' r = false) /\
  exists r, In r res /\ capacity_ge r c' /\ price_le r c'.
Proof.
  intros res c'.
  assert (E : rank_combinations catalog_steep 3 4 "RAID5" = Ok res)
    by reflexivity.
  assert (Hc' : In c' (candidates catalog_steep 3 4 "RAID5"))
    by (left; reflexivity).
  assert (Habs : forall r, In r res -> same_capacity c' r = false)
    by (intros r [<- | [<- | []]]; reflexivity).
  repeat split; try assumption.
  exact (rank_combinations_excluded_dominated
           catalog_steep 3 4 "RAID5" res c' E Hc' Habs).
Defined.

Lemma rank_combinations_tie_break_witness :
  (* [{1.0: 60, 2.0: 100, 4.0: 500}], 2..5: the bucket of capacity 4 holds
     a dearer combination of fewer drives and two combinations of equal
     price *)
  (let prices := [(1%Q, 60%Q); (2%Q, 100%Q); (4%Q, 500%Q)] in
   let res := [combo 5 4%Q 500%Q "RAID5"; combo 4 4%Q 500%Q "RAID5";
               combo 5 2%Q 100%Q "RAID5"; combo 4 2%Q 100%Q "RAID5";
               combo 3 2%Q 100%Q "RAID5"; combo 4 1%Q 60%Q "RAID5";
               combo 3 1%Q 60%Q "RAID5"; combo 2 1%Q 60%Q "RAID5"] in
   let c := combo 3 2%Q 100%Q "RAID5" in
   let bucket := filter (same_capacity c) (candidates prices 2 5 "RAID5") in
   rank_combinations prices 2 5 "RAID5" = Ok res /\
   In c res /\
   bucket = [combo 2 4%Q 500%Q "RAID5"; c; combo 5 1%Q 60%Q "RAID5"] /\
   map total_price bucket = [1000%Q; 300%Q; 300%Q] /\
   In c bucket /\
   (forall c', In c' bucket -> price_le c c') /\
   (forall c', In c' bucket ->
      num_eq (total_price c') (total_price c) = true ->
      drive_count c <= drive_count c') /\
   find
     (fun item =>
        let c' := mkCombo (drive_count c) (fst item) (snd item) "RAID5" in
        same_capacity c c' && tie c c')
     prices
   = Some (unit_capacity c, unit_price c))
  /\
  (* [{1.0: 100, 2.0: 100}], 1..2: the bucket of capacity 0 holds two
     combinations of equal price and equal drive count *)
  (let prices := [(1%Q, 100%Q); (2%Q, 100%Q)] in
   let res := [combo 2 2%Q 100%Q "RAID5"; combo 2 1%Q 100%Q "RAID5";
               combo 1 1%Q 100%Q "RAID5"] in
   let c := combo 1 1%Q 100%Q "RAID5" in
   let bucket := filter (same_capacity c) (candidates prices 1 2 "RAID5") in
   rank_combinations prices 1 2 "RAID5" = Ok res /\
   In c res /\
   bucket = [c; combo 1 2%Q 100%Q "RAID5"] /\
   map total_price bucket = [100%Q; 100%Q] /\
   In c bucket /\
   (forall c', In c' bucket -> price_le c c') /\
   (forall c', In c' bucket ->
      num_eq (total_price c') (total_price c) = true ->
      drive_count c <= drive_count c') /\
   find
     (fun item =>
        let c' := mkCombo (drive_count c) (fst item) (snd item) "RAID5" in
        same_capacity c c' && tie c c')
     prices
   = Some (unit_capacity c, unit_price c)).
Proof.
  split.
  - intros prices res c bucket.
    assert (E : rank_combinations prices 2 5 "RAID5" = Ok res) by reflexivity.
    assert (Hc : In c res)
      by (right; right; right; right; left; reflexivity).
    split; [exact E |]. split; [exact Hc |].
    split; [reflexivity |]. split; [reflexivity |].
    exact (rank_combinations_tie_break prices 2 5 "RAID5" res c E Hc).
  - intros prices res c bucket.
    assert (E : rank_combinations prices 1 2 "RAID5" = Ok res) by reflexivity.
    assert (Hc : In c res) by (right; right; left; reflexivity).
    split; [exact E |]. split; [exact Hc |].
    split; [reflexivity |]. split; [reflexivity |].
    exact (rank_combinations_tie_break prices 1 2 "RAID5" res c E Hc).
Defined.

Lemma rank_combinations_empty_catalog_witness :
  3 <= 4 /\ rank_combinations ([] : list (Q * Q)) 3 4 "RAID5" = Ok [].
Proof.
  split; [lia |].
  apply (rank_combinations_empty_catalog 3 4 "RAID5"). lia.
Defined.

Lemma rank_combinations_empty_range_witness :
  5 > 3 /\ rank_combinations catalog_plain 5 3 "RAID5" = Ok [].
Proof.
  split; [lia |].
  apply (rank_combinations_empty_range catalog_plain 5 3 "RAID5"). lia.
Defined.

Lemma rank_combinations_from_inputs_witness :
  let c := combo 3 2%Q 150%Q "RAID5" in
  rank_combinations catalog_steep 3 4 "RAID5"
  = Ok [combo 4 2%Q 150%Q "RAID5"; c] /\
  In c [combo 4 2%Q 150%Q "RAID5"; c] /\
  3 <= drive_count c <= 4 /\
  In (unit_capacity c, unit_price c) catalog_steep /\
  raid_level c = "RAID5".
Proof.
  intros c.
  assert (E : rank_combinations catalog_steep 3 4 "RAID5"
              = Ok [combo 4 2%Q 150%Q "RAID5"; c]) by reflexivity.
  assert (Hc : In c [combo 4 2%Q 150%Q "RAID5"; c]) by (right; left; reflexivity).
  split; [exact E |]. split; [exact Hc |].
  exact (rank_combinations_from_inputs catalog_steep 3 4 "RAID5" _ c E Hc).
Defined.

(** * Further properties of [rank_combinations] *)

(** ** The buckets partition the generated combinations *)

Section Partition.

Context {num : Type} `{Number num}.

Lemma dict_append_concat (d d' : dict num) (key : num) (c : Combo num) :
  dict_append d key c = Ok d' ->
  Permutation (List.concat (map snd d')) (List.concat (map snd d) ++ [c]).
Proof.
  intros E. apply dict_append_ok in E.
  destruct E as (d1 & k & l & d2 & -> & -> & _ & _).
  rewrite !map_app, !concat_app. simpl. rewrite <- !app_assoc.
  apply Permutation_app_head. apply Permutation_app_head.
  apply Permutation_cons_append.
Qed.

Lemma add_combo_concat (lvl : string) (dc : Z) (d d' : dict num)
  (item : num * num) :
  add_combo lvl dc d item = Ok d' ->
  Permutation (List.concat (map snd d'))
    (List.concat (map snd d) ++ [mkCombo dc (fst item) (snd item) lvl]).
Proof.
  unfold add_combo. intros E. inv_bind E.
  apply dict_append_concat in E.
  destruct (negb (dict_contains d a)); [| exact E].
  unfold dict_new in E. rewrite map_app, concat_app in E. simpl in E.
  now rewrite app_nil_r in E.
Qed.

Lemma inner_loop_concat (lvl : string) (dc : Z) (items : list (num * num)) :
  forall d d' : dict num,
    for_each items (add_combo lvl dc) d = Ok d' ->
    Permutation (List.concat (map snd d'))
      (List.concat (map snd d)
       ++ map (fun item => mkCombo dc (fst item) (snd item) lvl) items).
Proof.
  induction items as [| item items IH]; simpl; intros d d' E.
  - injection E as <-. now rewrite app_nil_r.
  - inv_bind E. rewrite (IH a d' E).
    rewrite (add_combo_concat lvl dc d a item Ha).
    now rewrite <- app_assoc.
Qed.

Lemma generate_concat (prices : list (num * num)) (lo hi : Z) (lvl : string)
  (d : dict num) :
  generate prices lo hi lvl = Ok d ->
  Permutation (List.concat (map snd d)) (candidates prices lo hi lvl).
Proof.
  unfold generate, candidates.
  change (flat_map
            (fun drive_count =>
               map (fun item => mkCombo drive_count (fst item) (snd item) lvl)
                 prices) (range lo (hi + 1)))
    with (List.concat (map snd ([] : dict num))
          ++ flat_map
               (fun drive_count =>
                  map (fun item => mkCombo drive_count (fst item) (snd item) lvl)
                    prices) (range lo (hi + 1))).
  generalize ([] : dict num). revert d.
  induction (range lo (hi + 1)) as [| dc dcs IH]; simpl; intros d d0 E.
  - injection E as <-. now rewrite app_nil_r.
  - inv_bind E. rewrite (IH d a E).
    rewrite (inner_loop_concat lvl dc prices d0 a Ha).
    now rewrite <- app_assoc.
Qed.

Lemma candidates_length (prices : list (num * num)) (lo hi : Z) (lvl : string) :
  Z.of_nat (List.length (candidates prices lo hi lvl))
  = Z.max 0 (hi - lo + 1) * Z.of_nat (List.length prices).
Proof.
  unfold candidates, range.
  replace (Z.max 0 (hi - lo + 1)) with (Z.of_nat (Z.to_nat (hi + 1 - lo)))
    by lia.
  generalize (Z.to_nat (hi + 1 - lo)) as n. intros n.
  generalize 0%nat as s. induction n as [| n IH]; intros s.
  - reflexivity.
  - rewrite Nat2Z.inj_succ. cbn [seq map flat_map].
    rewrite length_app, length_map, Nat2Z.inj_add, IH. lia.
Qed.

Lemma insert_desc_length (kv : num * list (Combo num))
  (l : list (num * list (Combo num))) :
  List.length (insert_desc kv l) = S (List.length l).
Proof.
  induction l as [| y l IH]; simpl; [reflexivity |].
  destruct (num_lt (fst kv) (fst y)); simpl; [now rewrite IH | reflexivity].
Qed.

Lemma sorted_desc_length (d : dict num) :
  List.length (sorted_desc d) = List.length d.
Proof.
  unfold sorted_desc. induction d as [| kv d IH]; simpl; [reflexivity |].
  now rewrite insert_desc_length, IH.
Qed.

Lemma nonempty_buckets_length (d : dict num) :
  (forall k l, In (k, l) d -> l <> []) ->
  (List.length d <= List.length (List.concat (map snd d)))%nat.
Proof.
  induction d as [| [k l] d IH]; simpl; intros Hne; [lia |].
  rewrite length_app.
  assert (Hl : l <> []) by (apply (Hne k l); now left).
  assert (Hd : (List.length d <= List.length (List.concat (map snd d)))%nat)
    by (apply IH; intros k' l' Hi; apply (Hne k' l'); now right).
  destruct l; [congruence | simpl; lia].
Qed.

Lemma Picks_length (o : option (Combo num)) bs ps :
  Picks o bs ps -> (List.length ps <= List.length bs)%nat.
Proof.
  induction 1; simpl; lia.
Qed.

End Partition.

(** ** The returned list as a skyline of the generated combinations *)

Section Skyline.

Context {num : Type} `{Number num}.

Lemma strongly_sorted_and {A : Type} (R S : A -> A -> Prop) (l : list A) :
  StronglySorted R l -> StronglySorted S l ->
  StronglySorted (fun a b => R a b /\ S a b) l.
Proof.
  induction 1 as [| a l HR IH Ha]; intros HS; [constructor |].
  inversion HS as [| a' l' HS' Ha']; subst.
  constructor; [now apply IH |].
  rewrite Forall_forall in *. intros b Hb. split; auto.
Qed.

Lemma strongly_sorted_cases {A : Type} (R : A -> A -> Prop) (l : list A)
  (x y : A) :
  StronglySorted R l -> In x l -> In y l -> x = y \/ R x y \/ R y x.
Proof.
  induction 1 as [| a l HR IH Ha]; intros Hx Hy; [contradiction |].
  rewrite Forall_forall in Ha.
  destruct Hx as [<- | Hx], Hy as [<- | Hy]; auto.
Qed.

Lemma last_opt_cons {A : Type} (a : A) (l : list A) :
  last_opt (a :: l) = match last_opt l with
                      | Some x => Some x
                      | None => Some a
                      end.
Proof.
  unfold last_opt. simpl. destruct (rev l); reflexivity.
Qed.

Lemma strongly_sorted_last {A : Type} (R : A -> A -> Prop) (l : list A)
  (z : A) :
  StronglySorted R l -> last_opt l = Some z ->
  In z l /\ forall x, In x l -> x = z \/ R x z.
Proof.
  induction 1 as [| a l HR IH Ha]; intros Hz; [discriminate |].
  rewrite last_opt_cons in Hz. rewrite Forall_forall in Ha.
  destruct (last_opt l) as [z' |] eqn:Hl.
  - injection Hz as ->. destruct (IH eq_refl) as (Hin & Hall).
    split; [now right |].
    intros x [<- | Hx]; [right; now apply Ha | now apply Hall].
  - injection Hz as ->. split; [now left |].
    destruct l as [| b l]; [intros x [<- | []]; now left |].
    rewrite last_opt_cons in Hl. destruct (last_opt l); discriminate.
Qed.

Lemma capacity_gt_ge (r p c : Combo num) :
  capacity_gt r p -> capacity_ge p c -> capacity_ge r c.
Proof.
  intros (vr & vp & Er & Ep & L) (vp' & vc & Ep' & Ec & G).
  rewrite Ep in Ep'. injection Ep' as <-.
  exists vr, vc. repeat split; try assumption.
  apply num_lt_asym. now apply (num_le_lt_trans vc vp vr).
Qed.

Lemma capacity_cycle (r p c : Combo num) :
  capacity_gt r p -> capacity_ge p c -> capacity_ge c r -> False.
Proof.
  intros (vr & vp & Er & Ep & L) (vp' & vc & Ep' & Ec & G)
         (vc' & vr' & Ec' & Er' & G').
  rewrite Ep in Ep'. injection Ep' as <-.
  rewrite Ec in Ec'. injection Ec' as <-.
  rewrite Er in Er'. injection Er' as <-.
  pose proof (num_le_trans vp vc vr G G') as F. congruence.
Qed.

Lemma capacity_ge_trans (a b c : Combo num) :
  capacity_ge a b -> capacity_ge b c -> capacity_ge a c.
Proof.
  intros (va & vb & Ea & Eb & L) (vb' & vc & Eb' & Ec & G).
  rewrite Eb in Eb'. injection Eb' as <-.
  exists va, vc. repeat split; try assumption.
  now apply (num_le_trans va vb vc).
Qed.

Lemma same_capacity_ge (a b : Combo num) :
  same_capacity a b = true -> capacity_ge a b /\ capacity_ge b a.
Proof.
  unfold same_capacity. destruct (total_capacity a) as [va | e] eqn:Ea;
    [| discriminate].
  intros Hb. apply in_bucket_capacity in Hb. destruct Hb as (vb & Eb & E).
  destruct (num_eq_not_lt va vb E) as (L1 & L2).
  split; [exists va, vb | exists vb, va]; auto.
Qed.

Lemma rank_combinations_subset (prices : list (num * num)) (lo hi : Z)
  (lvl : string) (res : list (Combo num)) (c : Combo num) :
  rank_combinations prices lo hi lvl = Ok res -> In c res ->
  In c (candidates prices lo hi lvl).
Proof.
  intros E Hc.
  destruct (rank_combinations_from _ _ _ _ _ c E Hc) as (k & _ & Hch).
  apply Chosen_In, filter_In in Hch. tauto.
Qed.

Lemma rank_combinations_sorted (prices : list (num * num)) (lo hi : Z)
  (lvl : string) (res : list (Combo num)) :
  rank_combinations prices lo hi lvl = Ok res ->
  StronglySorted (fun a b => price_le b a /\ capacity_gt a b) res.
Proof.
  intros E.
  destruct (rank_combinations_picks _ _ _ _ _ E) as (d & _ & Hk & Hs & Hp).
  apply strongly_sorted_and.
  - apply (Picks_prices _ _ _ Hp).
  - exact (Picks_capacities _ _ _ Hk Hs Hp).
Qed.

Lemma price_le_trans (a b c : Combo num) :
  price_le a b -> price_le b c -> price_le a c.
Proof.
  unfold price_le. intros L G. now apply (num_le_trans _ (total_price b)).
Qed.

(** No generated combination of at least the capacity of a returned
    entry is cheaper than the entry. *)
Lemma skyline_undominated (prices : list (num * num)) (lo hi : Z)
  (lvl : string) (res : list (Combo num)) (r c : Combo num) :
  rank_combinations prices lo hi lvl = Ok res ->
  In r res -> In c (candidates prices lo hi lvl) ->
  capacity_ge c r -> price_le r c.
Proof.
  intros E Hr Hc Hge.
  destruct (rank_combinations_dominates _ _ _ _ _ c E Hc)
    as (p & Hp & Hpc & Hple).
  destruct (strongly_sorted_cases _ _ p r (rank_combinations_sorted _ _ _ _ _ E)
              Hp Hr) as [-> | [(Hpr & _) | (_ & Hcap)]].
  - exact Hple.
  - now apply (price_le_trans r p c).
  - exfalso. exact (capacity_cycle r p c Hcap Hpc Hge).
Qed.

Lemma Picks_skipped (o : option (Combo num)) bs ps :
  keyed bs -> StronglySorted key_gt bs -> Picks o bs ps ->
  forall k l, In (k, l) bs ->
    (exists p, In p ps /\ In p l) \/
    (exists c0,
        (o = Some c0 \/
         (In c0 ps /\ exists k0, in_bucket k0 c0 = true /\ num_lt k k0 = true))
        /\ forall c', In c' l ->
             num_lt (total_price c0) (total_price c') = true).
Proof.
  intros Hk Hs Hp. revert Hk Hs.
  induction Hp as [o | c0 k0 l0 bs ps Hdom Hp IH | o k0 l0 bs c ps Hch Hle Hp IH];
    intros Hk Hs k l Hi.
  - contradiction.
  - inversion Hs; subst. destruct Hi as [[= <- <-] | Hi].
    + right. exists c0. split; [now left | exact Hdom].
    + exact (IH (keyed_tail _ _ Hk) ltac:(assumption) k l Hi).
  - inversion Hs as [| b bs' Hs' Hall]; subst.
    destruct Hi as [[= <- <-] | Hi].
    + left. exists c. split; [now left | now apply Chosen_In].
    + rewrite Forall_forall in Hall.
      destruct (IH (keyed_tail _ _ Hk) Hs' k l Hi)
        as [(p & Hp' & Hpl) | (c1 & [[= <-] | (Hc1 & k1 & Hk1 & L)] & Hlt)].
      * left. exists p. split; [now right | exact Hpl].
      * right. exists c. split; [| exact Hlt]. right.
        split; [now left |]. exists k0. split.
        -- apply (Hk k0 l0); [now left | now apply Chosen_In].
        -- exact (Hall (k, l) Hi).
      * right. exists c1. split; [| exact Hlt]. right.
        split; [now right |]. exists k1. now split.
Qed.

End Skyline.

Section Extras.

Context {num : Type} `{Number num}.

Lemma candidates_nil (prices : list (num * num)) (lo hi : Z) (lvl : string) :
  candidates prices lo hi lvl = [] <-> prices = [] \/ hi < lo.
Proof.
  pose proof (candidates_length prices lo hi lvl) as Hlen. split.
  - intros E. rewrite E in Hlen. simpl in Hlen.
    destruct prices as [| item prices]; [now left | right].
    simpl List.length in Hlen. nia.
  - intros Hc. apply length_zero_iff_nil.
    destruct Hc as [-> | Hlt]; simpl in Hlen; nia.
Qed.

(** X1: the only exception [rank_combinations] raises is the
    [ValueError] of [total_capacity], and it raises it exactly when the
    identifier is not accepted, the catalog is not empty and the range is
    not empty; the dictionary lookup, the two [min] and the indexing in
    the loops never fail. *)
Theorem rank_combinations_raises_iff (prices : list (num * num))
  (lo hi : Z) (lvl : string) (e : exn) :
  rank_combinations prices lo hi lvl = Raise e <->
  recognised lvl = false /\ prices <> [] /\ lo <= hi /\
  e = ValueError ("Unknown RAID Level " ++ lvl)%string.
Proof.
  split.
  - intros E. destruct (recognised lvl) eqn:Hr.
    + destruct (rank_combinations_returns prices lo hi lvl Hr) as (res & E').
      congruence.
    + destruct prices as [| item prices].
      * unfold rank_combinations in E.
        rewrite generate_empty_catalog in E. discriminate.
      * destruct (Z_le_gt_dec lo hi) as [Hle | Hgt].
        -- rewrite (rank_combinations_unknown item prices lo hi lvl Hle Hr) in E.
           injection E as <-. repeat split; [discriminate | exact Hle].
        -- unfold rank_combinations, generate in E.
           rewrite range_empty in E by lia. discriminate.
  - intros (Hr & Hp & Hle & ->). destruct prices as [| item prices];
      [congruence |].
    now apply rank_combinations_unknown.
Qed.

(** X2: after the generation loops every bucket of [all_combos] is not
    empty and holds exactly the generated combinations whose capacity
    [==] its key, in the order of generation; the keys are pairwise
    different; and every generated combination is in some bucket. *)
Theorem generate_groups (prices : list (num * num)) (lo hi : Z)
  (lvl : string) (d : dict num) :
  generate prices lo hi lvl = Ok d ->
  (forall k l, In (k, l) d ->
     l <> [] /\ l = filter (in_bucket k) (candidates prices lo hi lvl)) /\
  ForallOrdPairs (fun k k' => num_eq k k' = false) (map fst d) /\
  (forall c, In c (candidates prices lo hi lvl) ->
     exists k l, In (k, l) d /\ In c l).
Proof.
  intros E. destruct (generate_buckets _ _ _ _ _ E) as (Hb & Hd & Hcov).
  split; [| split].
  - intros k l Hi. destruct (Hb k l Hi). now split.
  - exact Hd.
  - intros c Hc. destruct (Hcov c Hc) as (k & l & Hi & Hk).
    exists k, l. split; [exact Hi |].
    destruct (Hb k l Hi) as (-> & _). apply filter_In. now split.
Qed.

(** X3: the buckets of [all_combos] taken together are a permutation of
    the generated combinations: grouping loses none and duplicates
    none. *)
Theorem generate_partition (prices : list (num * num)) (lo hi : Z)
  (lvl : string) (d : dict num) :
  generate prices lo hi lvl = Ok d ->
  Permutation (List.concat (map snd d)) (candidates prices lo hi lvl).
Proof.
  apply generate_concat.
Qed.

(** X4: the returned list is empty exactly when the catalog is empty or
    the drive-count range is empty. *)
Theorem rank_combinations_empty_iff (prices : list (num * num))
  (lo hi : Z) (lvl : string) (res : list (Combo num)) :
  rank_combinations prices lo hi lvl = Ok res ->
  (res = [] <-> prices = [] \/ hi < lo).
Proof.
  intros E. rewrite <- (candidates_nil prices lo hi lvl). split.
  - intros ->. destruct (candidates prices lo hi lvl) as [| c cs] eqn:Hc;
      [reflexivity |].
    destruct (rank_combinations_dominates prices lo hi lvl [] c E)
      as (r & [] & _).
    rewrite Hc. now left.
  - intros Hc. destruct res as [| r res]; [reflexivity |].
    pose proof (rank_combinations_subset _ _ _ _ _ r E (or_introl eq_refl)) as Hr.
    rewrite Hc in Hr. contradiction.
Qed.

(** X5: the first entry of the returned list has the largest capacity
    that any generated combination reaches. *)
Theorem rank_combinations_first_largest (prices : list (num * num))
  (lo hi : Z) (lvl : string) (r : Combo num) (rest : list (Combo num))
  (c : Combo num) :
  rank_combinations prices lo hi lvl = Ok (r :: rest) ->
  In c (candidates prices lo hi lvl) ->
  capacity_ge r c.
Proof.
  intros E Hc.
  destruct (rank_combinations_dominates _ _ _ _ _ c E Hc) as (p & Hp & Hpc & _).
  pose proof (rank_combinations_sorted _ _ _ _ _ E) as Hs.
  inversion Hs as [| a l _ Hall]; subst. rewrite Forall_forall in Hall.
  destruct Hp as [<- | Hp]; [exact Hpc |].
  apply (capacity_gt_ge r p c); [apply (Hall p Hp) | exact Hpc].
Qed.

(** X6: the last entry of the returned list is a cheapest of all
    generated combinations. *)
Theorem rank_combinations_last_cheapest (prices : list (num * num))
  (lo hi : Z) (lvl : string) (res : list (Combo num)) (r c : Combo num) :
  rank_combinations prices lo hi lvl = Ok res ->
  last_opt res = Some r ->
  In c (candidates prices lo hi lvl) ->
  price_le r c.
Proof.
  intros E Hlast Hc.
  destruct (rank_combinations_dominates _ _ _ _ _ c E Hc) as (p & Hp & _ & Hple).
  destruct (strongly_sorted_last _ _ r (rank_combinations_sorted _ _ _ _ _ E)
              Hlast) as (_ & Hall).
  destruct (Hall p Hp) as [-> | (Hpr & _)]; [exact Hple |].
  now apply (price_le_trans r p c).
Qed.

(** X7: no entry of the returned list is undercut: a generated
    combination of at least the entry's capacity costs at least the
    entry's price. *)
Theorem rank_combinations_undominated (prices : list (num * num))
  (lo hi : Z) (lvl : string) (res : list (Combo num)) (r c : Combo num) :
  rank_combinations prices lo hi lvl = Ok res ->
  In r res ->
  In c (candidates prices lo hi lvl) ->
  capacity_ge c r ->
  price_le r c.
Proof.
  apply skyline_undominated.
Qed.

(** X8: the capacity of a generated combination is the capacity of an
    entry of the returned list exactly when some generated combination of
    that capacity costs no more than every generated combination of at
    least that capacity. *)
Theorem rank_combinations_kept_iff (prices : list (num * num))
  (lo hi : Z) (lvl : string) (res : list (Combo num)) (c : Combo num) :
  rank_combinations prices lo hi lvl = Ok res ->
  In c (candidates prices lo hi lvl) ->
  ((exists r, In r res /\ same_capacity c r = true) <->
   (exists c1, In c1 (candidates prices lo hi lvl) /\
               same_capacity c c1 = true /\
               forall c', In c' (candidates prices lo hi lvl) ->
                          capacity_ge c' c -> price_le c1 c')).
Proof.
  intros E Hc. split.
  - intros (r & Hr & Hsame). exists r.
    split; [now apply (rank_combinations_subset _ _ _ _ _ r E) |].
    split; [exact Hsame |]. intros c' Hc' Hge.
    apply (skyline_undominated _ _ _ _ _ r c' E Hr Hc').
    apply (capacity_ge_trans c' c r Hge).
    exact (proj1 (same_capacity_ge c r Hsame)).
  - intros (c1 & Hc1 & Hsame & Hmin).
    destruct (rank_combinations_picks _ _ _ _ _ E) as (d & Hb & Hk & Hs & Hp).
    destruct Hb as (Hb & _ & Hcov).
    destruct (Hcov c Hc) as (k & l & Hi & Hkc).
    pose proof (same_capacity_bucket k c Hkc) as Hsk.
    assert (Hl1 : In c1 l).
    { destruct (Hb k l Hi) as (-> & _). apply filter_In.
      split; [exact Hc1 | now rewrite <- Hsk]. }
    apply (proj2 (sorted_desc_In _ _)) in Hi.
    destruct (Picks_skipped None _ _ Hk Hs Hp k l Hi)
      as [(p & Hp' & Hpl) | (c0 & [Hnone | (Hc0 & k0 & Hk0 & L)] & Hlt)].
    + exists p. split; [exact Hp' |]. rewrite Hsk. now apply (Hk k l p).
    + discriminate.
    + exfalso.
      assert (Hge : capacity_ge c0 c).
      { destruct (bucket_capacity_gt k0 k c0 c Hk0 Hkc L)
          as (v0 & v & E0 & Ev & G).
        exists v0, v. repeat split; try assumption. now apply num_lt_asym. }
      pose proof (Hmin c0 (rank_combinations_subset _ _ _ _ _ c0 E Hc0) Hge)
        as Hle.
      unfold price_le in Hle. rewrite (Hlt c1 Hl1) in Hle. discriminate.
Qed.

(** X9: for ["RAID1"], where the capacity does not depend on the number
    of drives, every entry of the returned list has the minimum drive
    count, provided that more drives of a catalog entry never cost
    less. *)
Theorem rank_combinations_RAID1_fewest_drives (prices : list (num * num))
  (lo hi : Z) (res : list (Combo num)) (c : Combo num) :
  (forall item d d', In item prices -> lo <= d <= d' -> d' <= hi ->
     num_lt (num_mul (snd item) (num_of_int d'))
            (num_mul (snd item) (num_of_int d)) = false) ->
  rank_combinations prices lo hi "RAID1" = Ok res ->
  In c res ->
  drive_count c = lo.
Proof.
  intros Hmono E Hc.
  destruct (rank_combinations_from _ _ _ _ _ c E Hc) as (k & Hk & Hch).
  pose proof (Chosen_In _ _ Hch) as Hin. apply filter_In in Hin.
  destruct Hin as (Hcand & _).
  apply candidates_In in Hcand. destruct Hcand as (Hdc & Hitem & Hlvl).
  set (c' := mkCombo lo (unit_capacity c) (unit_price c) "RAID1").
  assert (Hc' : In c' (filter (in_bucket k) (candidates prices lo hi "RAID1"))).
  { apply filter_In. split.
    - apply candidates_In. simpl. repeat split; try lia; assumption.
    - rewrite <- Hk. unfold in_bucket, total_capacity. simpl.
      rewrite Hlvl. reflexivity. }
  destruct Hch as (Hprice & Hcount & _).
  pose proof (Hprice c' Hc') as Hle. unfold price_le in Hle.
  pose proof (Hmono (unit_capacity c, unit_price c) lo (drive_count c)
                Hitem ltac:(lia) ltac:(lia)) as Hge.
  simpl in Hge.
  assert (Heq : num_eq (total_price c') (total_price c) = true)
    by (apply num_lt_total; assumption).
  specialize (Hcount c' Hc' Heq). simpl in Hcount. lia.
Qed.

(** X10: the returned list has at most one entry for each drive count
    of the range and catalog entry. *)
Theorem rank_combinations_length (prices : list (num * num))
  (lo hi : Z) (lvl : string) (res : list (Combo num)) :
  rank_combinations prices lo hi lvl = Ok res ->
  Z.of_nat (List.length res)
  <= Z.max 0 (hi - lo + 1) * Z.of_nat (List.length prices).
Proof.
  intros E. rewrite <- (candidates_length prices lo hi lvl).
  unfold rank_combinations in E. inv_bind E. rename a into d.
  destruct (rank_loop_picks _ _ _ E) as (ps & -> & Hp). simpl.
  apply Picks_length in Hp. rewrite sorted_desc_length in Hp.
  pose proof (nonempty_buckets_length d
                (buckets_of_nonempty d _ (generate_buckets _ _ _ _ _ Ha))) as Hd.
  rewrite (Permutation_length (generate_concat _ _ _ _ _ Ha)) in Hd. lia.
Qed.

End Extras.

(** ** Levels with the same capacity formula *)

Section SameFormula.

Context {num : Type} `{Number num}.

Variables l1 l2 : string.

Hypothesis same_formula :
  forall (dc : Z) (uc up : num),
    total_capacity (mkCombo dc uc up l1) = total_capacity (mkCombo dc uc up l2).

Lemma relabel_total_price (c : Combo num) :
  total_price (relabel l2 c) = total_price c.
Proof. reflexivity. Qed.

Lemma relabel_dict_contains (d : dict num) (key : num) :
  dict_contains (relabel_dict l2 d) key = dict_contains d key.
Proof.
  unfold dict_contains, relabel_dict.
  induction d as [| [k l] d IH]; simpl; [reflexivity | now rewrite IH].
Qed.

Lemma relabel_dict_append (d d' : dict num) (key : num) (c : Combo num) :
  dict_append d key c = Ok d' ->
  dict_append (relabel_dict l2 d) key (relabel l2 c) = Ok (relabel_dict l2 d').
Proof.
  revert d'. induction d as [| [k l] d IH]; simpl; intros d' E;
    [discriminate |].
  destruct (num_eq k key).
  - injection E as <-. simpl. now rewrite map_app.
  - inv_bind E. injection E as <-. now rewrite (IH a Ha).
Qed.

Lemma relabel_add_combo (dc : Z) (d d' : dict num) (item : num * num) :
  add_combo l1 dc d item = Ok d' ->
  add_combo l2 dc (relabel_dict l2 d) item = Ok (relabel_dict l2 d').
Proof.
  unfold add_combo. rewrite <- same_formula. intros E. inv_bind E.
  rewrite Ha. simpl. rewrite relabel_dict_contains.
  apply relabel_dict_append in E. simpl in E.
  destruct (negb (dict_contains d a)); [| exact E].
  unfold dict_new, relabel_dict in *. now rewrite map_app in E.
Qed.

Lemma relabel_generate (prices : list (num * num)) (lo hi : Z) (d : dict num) :
  generate prices lo hi l1 = Ok d ->
  generate prices lo hi l2 = Ok (relabel_dict l2 d).
Proof.
  unfold generate.
  change ([] : dict num) with (relabel_dict l2 ([] : dict num)) at 2.
  generalize ([] : dict num). revert d.
  induction (range lo (hi + 1)) as [| dc dcs IH]; simpl; intros d d0 E.
  - now injection E as <-.
  - inv_bind E. rename a into d1, Ha into Hin.
    assert (Hin' : for_each prices (add_combo l2 dc) (relabel_dict l2 d0)
                   = Ok (relabel_dict l2 d1)).
    { clear E IH. revert d0 d1 Hin.
      induction prices as [| item items IHi]; simpl; intros d0 d1 Hin.
      - now injection Hin as <-.
      - inv_bind Hin. rewrite (relabel_add_combo dc d0 a item Ha). simpl.
        now apply IHi. }
    rewrite Hin'. simpl. now apply IH.
Qed.

Lemma relabel_insert_desc (kv : num * list (Combo num))
  (l : list (num * list (Combo num))) :
  insert_desc (fst kv, map (relabel l2) (snd kv)) (relabel_dict l2 l)
  = relabel_dict l2 (insert_desc kv l).
Proof.
  induction l as [| y l IH]; simpl; [reflexivity |].
  destruct (num_lt (fst kv) (fst y)); simpl; [now rewrite IH | reflexivity].
Qed.

Lemma relabel_sorted_desc (d : dict num) :
  sorted_desc (relabel_dict l2 d) = relabel_dict l2 (sorted_desc d).
Proof.
  unfold sorted_desc. induction d as [| kv d IH]; simpl; [reflexivity |].
  rewrite IH. apply relabel_insert_desc.
Qed.

Lemma filter_map_comm {A B : Type} (f : B -> bool) (g : A -> B) (l : list A) :
  filter f (map g l) = map g (filter (fun x => f (g x)) l).
Proof.
  induction l as [| x l IH]; simpl; [reflexivity |].
  destruct (f (g x)); simpl; now rewrite IH.
Qed.

Lemma relabel_filter (f : Combo num -> bool) (l : list (Combo num)) :
  (forall c, f (relabel l2 c) = f c) ->
  filter f (map (relabel l2) l) = map (relabel l2) (filter f l).
Proof.
  intros Hf. rewrite filter_map_comm. f_equal. now apply filter_ext.
Qed.

Lemma relabel_drive_counts (l : list (Combo num)) :
  map drive_count (map (relabel l2) l) = map drive_count l.
Proof. now rewrite map_map. Qed.

Lemma relabel_total_prices (l : list (Combo num)) :
  map total_price (map (relabel l2) l) = map total_price l.
Proof. now rewrite map_map. Qed.

Lemma relabel_rank_step (r r' : list (Combo num)) (k : num)
  (l : list (Combo num)) :
  rank_step r (k, l) = Ok r' ->
  rank_step (map (relabel l2) r) (k, map (relabel l2) l)
  = Ok (map (relabel l2) r').
Proof.
  unfold rank_step. simpl. rewrite relabel_total_prices.
  intros E. inv_bind E. rename a into mp. rewrite Ha. simpl.
  inv_bind E. rename a into dominated, Ha0 into Hdom.
  assert (Hdom' :
            (if 0 <? Z.of_nat (List.length (map (relabel l2) r))
             then last_combo <- py_last (map (relabel l2) r) ;;
                  Ok (num_gt mp (total_price last_combo))
             else Ok false) = Ok dominated).
  { rewrite length_map. destruct (0 <? Z.of_nat (List.length r)); [| exact Hdom].
    unfold py_last in *. rewrite <- map_rev.
    destruct (rev r) as [| c0 rest]; simpl in *; [discriminate | exact Hdom]. }
  rewrite Hdom'. simpl. destruct dominated; [now injection E as <- |].
  rewrite (relabel_filter (fun combo => num_eq (total_price combo) mp))
    by reflexivity.
  rewrite relabel_drive_counts.
  inv_bind E. rename a into md, Ha0 into Hmd. rewrite Hmd. simpl.
  rewrite (relabel_filter (fun combo => drive_count combo =? md))
    by reflexivity.
  inv_bind E. rename a into c, Ha0 into Hc. injection E as <-.
  destruct (filter (fun combo => drive_count combo =? md)
              (filter (fun combo => num_eq (total_price combo) mp) l))
    as [| c1 rest]; simpl in *; [discriminate |].
  injection Hc as ->. now rewrite map_app.
Qed.

Lemma relabel_rank_loop (bs : list (num * list (Combo num))) :
  forall r r' : list (Combo num),
    for_each bs rank_step r = Ok r' ->
    for_each (relabel_dict l2 bs) rank_step (map (relabel l2) r)
    = Ok (map (relabel l2) r').
Proof.
  induction bs as [| [k l] bs IH]; simpl; intros r r' E.
  - now injection E as <-.
  - inv_bind E. rewrite (relabel_rank_step r a k l Ha). simpl. now apply IH.
Qed.

Lemma relabel_rank_combinations (prices : list (num * num)) (lo hi : Z)
  (res : list (Combo num)) :
  rank_combinations prices lo hi l1 = Ok res ->
  rank_combinations prices lo hi l2 = Ok (map (relabel l2) res).
Proof.
  unfold rank_combinations. intros E. inv_bind E.
  rewrite (relabel_generate prices lo hi a Ha). simpl.
  rewrite relabel_sorted_desc. exact (relabel_rank_loop _ [] res E).
Qed.

End SameFormula.

(** X11: ["RAID3"], ["RADI4"] and ["RAID5"] share one capacity formula,
    so [rank_combinations] returns for any two of them the same list up
    to the level recorded in the entries. *)
Theorem rank_combinations_parity_levels {num : Type} `{Number num}
  (prices : list (num * num)) (lo hi : Z) (l1 l2 : string)
  (res : list (Combo num)) :
  In l1 parity_levels -> In l2 parity_levels ->
  rank_combinations prices lo hi l1 = Ok res ->
  rank_combinations prices lo hi l2 = Ok (map (relabel l2) res).
Proof.
  intros H1 H2. apply relabel_rank_combinations. intros dc uc up.
  unfold parity_levels in *. simpl in H1, H2.
  destruct H1 as [<- | [<- | [<- | []]]], H2 as [<- | [<- | [<- | []]]];
    reflexivity.
Qed.

(** *** Instances on concrete inputs *)

Lemma Q_price_monotone (up : Q) (d d' : Z) :
  (0 <= up)%Q -> d <= d' ->
  Q_lt (up * inject_Z d') (up * inject_Z d) = false.
Proof.
  intros Hup Hd. unfold Q_lt.
  destruct (Qcompare_spec (up * inject_Z d') (up * inject_Z d))
    as [E | L | G]; try reflexivity.
  exfalso. apply (Qlt_irrefl (up * inject_Z d)).
  apply (Qle_lt_trans _ (up * inject_Z d')); [| exact L].
  rewrite (Qmult_comm up (inject_Z d)), (Qmult_comm up (inject_Z d')).
  apply Qmult_le_compat_r; [| exact Hup]. now rewrite <- Zle_Qle.
Qed.

Lemma generate_groups_witness :
  let d := [(2%Q, [combo 3 1%Q 500%Q "RAID5"]);
            (4%Q, [combo 3 2%Q 150%Q "RAID5"])] in
  generate catalog_steep 3 3 "RAID5" = Ok d /\
  (forall k l, In (k, l) d ->
     l <> [] /\ l = filter (in_bucket k) (candidates catalog_steep 3 3 "RAID5")) /\
  ForallOrdPairs (fun k k' => num_eq k k' = false) (map fst d) /\
  (forall c, In c (candidates catalog_steep 3 3 "RAID5") ->
     exists k l, In (k, l) d /\ In c l).
Proof.
  intros d.
  assert (E : generate catalog_steep 3 3 "RAID5" = Ok d) by reflexivity.
  split; [exact E |].
  exact (generate_groups catalog_steep 3 3 "RAID5" d E).
Defined.

Lemma generate_partition_witness :
  let d := [(2%Q, [combo 3 1%Q 500%Q "RAID5"]);
            (4%Q, [combo 3 2%Q 150%Q "RAID5"])] in
  generate catalog_steep 3 3 "RAID5" = Ok d /\
  Permutation (List.concat (map snd d)) (candidates catalog_steep 3 3 "RAID5").
Proof.
  intros d.
  assert (E : generate catalog_steep 3 3 "RAID5" = Ok d) by reflexivity.
  split; [exact E |].
  exact (generate_partition catalog_steep 3 3 "RAID5" d E).
Defined.

Lemma rank_combinations_empty_iff_witness :
  let res := [combo 3 2%Q 150%Q "RAID5"] in
  rank_combinations catalog_steep 3 3 "RAID5" = Ok res /\
  (res = [] <-> catalog_steep = [] \/ 3 < 3).
Proof.
  intros res.
  assert (E : rank_combinations catalog_steep 3 3 "RAID5" = Ok res)
    by reflexivity.
  split; [exact E |].
  exact (rank_combinations_empty_iff catalog_steep 3 3 "RAID5" res E).
Defined.

Lemma rank_combinations_first_largest_witness :
  let r := combo 4 2%Q 150%Q "RAID5" in
  let rest := [combo 3 2%Q 150%Q "RAID5"] in
  let c := combo 4 1%Q 500%Q "RAID5" in
  rank_combinations catalog_steep 3 4 "RAID5" = Ok (r :: rest) /\
  In c (candidates catalog_steep 3 4 "RAID5") /\
  capacity_ge r c.
Proof.
  intros r rest c.
  assert (E : rank_combinations catalog_steep 3 4 "RAID5" = Ok (r :: rest))
    by reflexivity.
  assert (Hc : In c (candidates catalog_steep 3 4 "RAID5"))
    by (right; right; left; reflexivity).
  split; [exact E |]. split; [exact Hc |].
  exact (rank_combinations_first_largest
           catalog_steep 3 4 "RAID5" r rest c E Hc).
Defined.

Lemma rank_combinations_last_cheapest_witness :
  let res := [combo 4 2%Q 150%Q "RAID5"; combo 3 2%Q 150%Q "RAID5"] in
  let r := combo 3 2%Q 150%Q "RAID5" in
  let c := combo 3 1%Q 500%Q "RAID5" in
  rank_combinations catalog_steep 3 4 "RAID5" = Ok res /\
  last_opt res = Some r /\
  In c (candidates catalog_steep 3 4 "RAID5") /\
  price_le r c.
Proof.
  intros res r c.
  assert (E : rank_combinations catalog_steep 3 4 "RAID5" = Ok res)
    by reflexivity.
  assert (Hl : last_opt res = Some r) by reflexivity.
  assert (Hc : In c (candidates catalog_steep 3 4 "RAID5"))
    by (left; reflexivity).
  split; [exact E |]. split; [exact Hl |]. split; [exact Hc |].
  exact (rank_combinations_last_cheapest
           catalog_steep 3 4 "RAID5" res r c E Hl Hc).
Defined.

Lemma rank_combinations_undominated_witness :
  let res := [combo 4 2%Q 150%Q "RAID5"; combo 3 2%Q 150%Q "RAID5"] in
  let r := combo 3 2%Q 150%Q "RAID5" in
  let c := combo 4 2%Q 150%Q "RAID5" in
  rank_combinations catalog_steep 3 4 "RAID5" = Ok res /\
  In r res /\
  In c (candidates catalog_steep 3 4 "RAID5") /\
  capacity_ge c r /\
  price_le r c.
Proof.
  intros res r c.
  assert (E : rank_combinations catalog_steep 3 4 "RAID5" = Ok res)
    by reflexivity.
  assert (Hr : In r res) by (right; left; reflexivity).
  assert (Hc : In c (candidates catalog_steep 3 4 "RAID5"))
    by (right; right; right; left; reflexivity).
  assert (Hge : capacity_ge c r)
    by (exists 6%Q, 4%Q; repeat split; reflexivity).
  split; [exact E |]. split; [exact Hr |]. split; [exact Hc |].
  split; [exact Hge |].
  exact (rank_combinations_undominated
           catalog_steep 3 4 "RAID5" res r c E Hr Hc Hge).
Defined.

Lemma rank_combinations_kept_iff_witness :
  let res := [combo 4 2%Q 150%Q "RAID5"; combo 3 2%Q 150%Q "RAID5"] in
  let c := combo 3 1%Q 500%Q "RAID5" in
  let cs := candidates catalog_steep 3 4 "RAID5" in
  rank_combinations catalog_steep 3 4 "RAID5" = Ok res /\
  In c cs /\
  ((exists r, In r res /\ same_capacity c r = true) <->
   (exists c1, In c1 cs /\ same_capacity c c1 = true /\
               forall c', In c' cs -> capacity_ge c' c -> price_le c1 c')).
Proof.
  intros res c cs.
  assert (E : rank_combinations catalog_steep 3 4 "RAID5" = Ok res)
    by reflexivity.
  assert (Hc : In c cs) by (left; reflexivity).
  split; [exact E |]. split; [exact Hc |].
  exact (rank_combinations_kept_iff catalog_steep 3 4 "RAID5" res c E Hc).
Defined.

Lemma rank_combinations_RAID1_fewest_drives_witness :
  let res := [combo 3 2%Q 150%Q "RAID1"; combo 3 1%Q 100%Q "RAID1"] in
  let c := combo 3 1%Q 100%Q "RAID1" in
  (forall item d d', In item catalog_plain -> 3 <= d <= d' -> d' <= 4 ->
     num_lt (num_mul (snd item) (num_of_int d'))
            (num_mul (snd item) (num_of_int d)) = false) /\
  rank_combinations catalog_plain 3 4 "RAID1" = Ok res /\
  In c res /\
  drive_count c = 3.
Proof.
  intros res c.
  assert (Hmono : forall item d d', In item catalog_plain ->
            3 <= d <= d' -> d' <= 4 ->
            num_lt (num_mul (snd item) (num_of_int d'))
                   (num_mul (snd item) (num_of_int d)) = false).
  { intros item d d' [<- | [<- | []]] Hd Hd';
      apply Q_price_monotone; try discriminate; lia. }
  assert (E : rank_combinations catalog_plain 3 4 "RAID1" = Ok res)
    by reflexivity.
  assert (Hc : In c res) by (right; left; reflexivity).
  split; [exact Hmono |]. split; [exact E |]. split; [exact Hc |].
  exact (rank_combinations_RAID1_fewest_drives
           catalog_plain 3 4 res c Hmono E Hc).
Defined.

Lemma rank_combinations_length_witness :
  let res := [combo 4 2%Q 150%Q "RAID5"; combo 3 2%Q 150%Q "RAID5"] in
  rank_combinations catalog_steep 3 4 "RAID5" = Ok res /\
  Z.of_nat (List.length res)
  <= Z.max 0 (4 - 3 + 1) * Z.of_nat (List.length catalog_steep).
Proof.
  intros res.
  assert (E : rank_combinations catalog_steep 3 4 "RAID5" = Ok res)
    by reflexivity.
  split; [exact E |].
  exact (rank_combinations_length catalog_steep 3 4 "RAID5" res E).
Defined.

Lemma rank_combinations_parity_levels_witness :
  let res := [combo 4 2%Q 150%Q "RAID3"; combo 3 2%Q 150%Q "RAID3";
              combo 4 1%Q 100%Q "RAID3"; combo 3 1%Q 100%Q "RAID3"] in
  In "RAID3" parity_levels /\ In "RAID5" parity_levels /\
  rank_combinations catalog_plain 3 4 "RAID3" = Ok res /\
  rank_combinations catalog_plain 3 4 "RAID5" = Ok (map (relabel "RAID5") res).
Proof.
  intros res.
  assert (H1 : In "RAID3" (parity_levels)) by (left; reflexivity).
  assert (H2 : In "RAID5" (parity_levels))
    by (right; right; left; reflexivity).
  assert (E : rank_combinations catalog_plain 3 4 "RAID3" = Ok res)
    by reflexivity.
  split; [exact H1 |]. split; [exact H2 |]. split; [exact E |].
  exact (rank_combinations_parity_levels
           catalog_plain 3 4 "RAID3" "RAID5" res H1 H2 E).
Defined.
